(** * slomo_camera: a shallow embedding of [main.py]

    The script watches a shared drive for camera data, stages the frames in a
    temporary folder, writes an ffmpeg concat manifest from the timestamp log
    and calls ffmpeg.  This development embeds the functions of [main.py] and
    proves what the design notes say about them.

    Conventions of the embedding.
    - Python [int] is [Z]; Python [float] is modelled by the exact rational
      it approximates ([Q]), so [/] is exact division and [round] and the
      [f] format round the exact value (ties to even).
    - A statement that can raise is a computation in the monad [M S], which
      threads the mutable world [S] and returns [Ok v] or [Raise e]; the world
      is returned in both cases, since what was written before an exception
      stays written.
    - Paths are lists of components ([os.path.join d f] is [d ++ [f]]); the
      file system is a finite map from paths to nodes. *)

From Stdlib Require Import Ascii String QArith Qabs.
From stdpp Require Import gmap strings list pretty.

Local Open Scope string_scope.
Local Open Scope list_scope.
Local Open Scope Z_scope.

(** ** The Python runtime *)

Module Py.

(** The [OSError] family ([WindowsError] is its Windows name). *)
Inductive os_error :=
  | FileExistsError
  | FileNotFoundError
  | NotADirectoryError
  | PermissionError
  | Message (msg : string).

Inductive exn :=
  | WindowsError (e : os_error)
  | IndexError
  | ValueError
  | ZeroDivisionError
  | UnboundLocalError (name : string).

Inductive outcome (A : Type) :=
  | Ok (v : A)
  | Raise (e : exn).
Arguments Ok {A} v.
Arguments Raise {A} e.

(** State and exceptions. *)
Definition M (S A : Type) : Type := S → outcome A * S.

Definition ret {S A} (v : A) : M S A := λ s, (Ok v, s).
Definition raise {S A} (e : exn) : M S A := λ s, (Raise e, s).
Definition bind {S A B} (m : M S A) (k : A → M S B) : M S B :=
  λ s, match m s with
       | (Ok v, s') => k v s'
       | (Raise e, s') => (Raise e, s')
       end.
Global Instance M_ret {S} : MRet (M S) := λ A, ret.
Global Instance M_bind {S} : MBind (M S) := λ A B k m, bind m k.
Definition get {S} : M S S := λ s, (Ok s, s).
Definition put {S} (s : S) : M S unit := λ _, (Ok tt, s).
Definition modify {S} (f : S → S) : M S unit := λ s, (Ok tt, f s).
Definition lift {S A} (o : outcome A) : M S A := λ s, (o, s).

(** [try: m except WindowsError: h] *)
Definition try_except_WindowsError {S A} (m : M S A) (h : M S A) : M S A :=
  λ s, match m s with
       | (Raise (WindowsError _), s') => h s'
       | r => r
       end.

(** [for x in l: body x] *)
Fixpoint for_each {S A} (l : list A) (body : A → M S unit) : M S unit :=
  match l with
  | [] => ret tt
  | x :: l' => body x;; for_each l' body
  end.

(** [enumerate(l)], counting from [start]. *)
Fixpoint enumerate_from {A} (start : nat) (l : list A) : list (nat * A) :=
  match l with
  | [] => []
  | x :: l' => (start, x) :: enumerate_from (S start) l'
  end.
Definition enumerate {A} (l : list A) : list (nat * A) := enumerate_from 0 l.

(** [l[i]] for a non-negative literal index. *)
Definition index {A} (l : list A) (i : nat) : outcome A :=
  match l !! i with
  | Some x => Ok x
  | None => Raise IndexError
  end.

(** *** [int(s)] on a [str]

    Surrounding white space (tab to carriage return, and the space) is
    dropped, one sign is allowed, and the digits may be grouped by single
    underscores. The text is taken to be ASCII. *)
Definition is_space (c : ascii) : bool :=
  let n := nat_of_ascii c in
  ((9 <=? n)%nat && (n <=? 13)%nat) || (n =? 32)%nat.

Definition digit_val (c : ascii) : option Z :=
  let n := nat_of_ascii c in
  if ((48 <=? n)%nat && (n <=? 57)%nat)%bool then Some (Z.of_nat n - 48) else None.

Fixpoint lstrip (s : string) : string :=
  match s with
  | String c s' => if is_space c then lstrip s' else s
  | EmptyString => EmptyString
  end.

Definition rstrip (s : string) : string :=
  String.rev (lstrip (String.rev s)).

Definition strip (s : string) : string := rstrip (lstrip s).

(** The digits after the sign: [acc] is the value read so far and
    [after_digit] tells whether the previous character was a digit (an
    underscore is only legal between two digits). *)
Fixpoint int_digits (s : string) (acc : Z) (after_digit : bool) : option Z :=
  match s with
  | EmptyString => if after_digit then Some acc else None
  | String c s' =>
      match digit_val c with
      | Some d => int_digits s' (10 * acc + d) true
      | None =>
          if (Ascii.eqb c "_" && after_digit)%bool
          then match s' with
               | EmptyString => None
               | String c' _ =>
                   match digit_val c' with
                   | Some _ => int_digits s' acc false
                   | None => None
                   end
               end
          else None
      end
  end.

Definition int (s : string) : outcome Z :=
  let parsed :=
    match strip s with
    | String "-" s' => Z.opp <$> int_digits s' 0 false
    | String "+" s' => int_digits s' 0 false
    | s' => int_digits s' 0 false
    end in
  match parsed with
  | Some z => Ok z
  | None => Raise ValueError
  end.

(** *** Number formatting *)

(** [str(n)] for a non-negative [n]. *)
Definition digits (n : Z) : string := pretty (Z.to_N n).


Fixpoint zeros (n : nat) : string :=
  match n with
  | O => ""
  | S n' => String "0" (zeros n')
  end.

(** Zero padding ([0] in a format spec) is sign aware: the zeros go between
    the sign and the digits, up to the minimum [width]. *)
Definition zero_pad (width : nat) (negative : bool) (body : string) : string :=
  let sign := if negative then "-" else "" in
  sign +:+ zeros (width - String.length sign - String.length body) +:+ body.

(** [f"{n:0<width>d}"] *)
Definition format_0d (width : nat) (n : Z) : string :=
  zero_pad width (n <? 0) (digits (Z.abs n)).

(** [f"{n}"] for an [int]. *)
Definition str_int (n : Z) : string := format_0d 0 n.

(** [round(x)]: the nearest integer, ties to the even one. *)
Definition round (x : Q) : Z :=
  let n := Qnum x in
  let d := Z.pos (Qden x) in
  let q := n `div` d in
  let r := n `mod` d in
  if 2 * r <? d then q
  else if d <? 2 * r then q + 1
  else if Z.even q then q else q + 1.

(** [f"{x:0<width>.<prec>f}"]: fixed point with [prec] digits after the
    point. The sign is the sign of [x], also when the digits round to zero. *)
Definition format_0f (width prec : nat) (x : Q) : string :=
  let scale := 10 ^ Z.of_nat prec in
  let scaled := round (Qabs x * inject_Z scale) in
  let int_part := digits (scaled `div` scale) in
  let frac := digits (scaled `mod` scale) in
  let frac_part :=
    match prec with
    | O => ""
    | _ => "." +:+ zeros (prec - String.length frac) +:+ frac
    end in
  zero_pad width (Qnum x <? 0) (int_part +:+ frac_part).

(** [f"{x:.<prec>f}"] *)
Definition format_f (prec : nat) (x : Q) : string := format_0f 0 prec x.

Global Instance Qeq_decision (x y : Q) : Decision (x == y)%Q := Qeq_dec x y.

(** [a / b] *)
Definition truediv (a b : Q) : outcome Q :=
  if Qeq_bool b 0 then Raise ZeroDivisionError else Ok (a / b)%Q.

(** [sum(l)] and [len(l)] on a list of [int]. *)
Definition sum (l : list Z) : Z := foldl Z.add 0 l.
Definition len {A} (l : list A) : Z := Z.of_nat (length l).

(** [s.endswith(suffix)] *)
Definition endswith (s suffix : string) : bool :=
  String.prefix (String.rev suffix) (String.rev s).

(** [s[:-n]] for a positive literal [n]. *)
Definition drop_last (n : nat) (s : string) : string :=
  String.substring 0 (String.length s - n) s.

End Py.

Import Py.


Definition nl : string := String (ascii_of_nat 10) "".
Definition dquote : string := String (ascii_of_nat 34) "".

(** ** Timestamps to durations: [write_durations] and [print_stats] *)

(** The two text streams the functions write: the chunks passed to
    [txt_file.write], in order, and the lines passed to [print]. *)
Record files := Files { txt_file : list string; stdout : list string }.

Definition write (s : string) : M files unit :=
  modify (λ w, Files (txt_file w ++ [s]) (stdout w)).
Definition print (s : string) : M files unit :=
  modify (λ w, Files (txt_file w) (stdout w ++ [s])).
(** [open(..., "w")]: the file starts empty. *)
Definition open_w : M files unit := modify (λ w, Files [] (stdout w)).

(** The local variables that live across iterations of the loop;
    [line_count] is unbound until the first iteration binds it. *)
Record locals := Locals {
  last_microsecond : Z;
  dts : list Z;
  line_count : option nat
}.

(** [slowdown * dt / 1000000] *)
Definition display_seconds (slowdown : Q) (dt : Z) : Q :=
  (slowdown * inject_Z dt / inject_Z 1000000)%Q.

Definition file_line (temp_folder : string) (idx : Z) : string :=
  "file '" +:+ temp_folder +:+ "\out." +:+ format_0d 6 idx +:+ ".tiff'".

Definition duration_line (slowdown : Q) (dt : Z) : string :=
  "duration " +:+ format_0f 8 6 (display_seconds slowdown dt).

Global Arguments file_line : simpl never.
Global Arguments duration_line : simpl never.

(** One iteration of the loop of [write_durations]: [row] is a row of the
    csv reader, [n] its position. *)
Definition write_durations_row (temp_folder : string) (slowdown : Q)
    (n : nat) (row : list string) (l : locals) : M files locals :=
  cell ← lift (index row 2);
  current_microsecond ← lift (int cell);
  dts' ←
    (if (0 <? n)%nat then
       let dt := current_microsecond - last_microsecond l in
       let dts' := dts l ++ [dt] in
       cell ← lift (index row 1);
       idx ← lift (int cell);
       write (file_line temp_folder idx);;
       write nl;;
       write (duration_line slowdown dt +:+ nl);;
       mret dts'
     else mret (dts l));
  mret (Locals current_microsecond dts' (Some n)).

Fixpoint write_durations_loop (temp_folder : string) (slowdown : Q)
    (rows : list (nat * list string)) (l : locals) : M files locals :=
  match rows with
  | [] => mret l
  | (n, row) :: rows' =>
      l' ← write_durations_row temp_folder slowdown n row l;
      write_durations_loop temp_folder slowdown rows' l'
  end.

Definition print_stats (dts : list Z) (slowx : Q) (line_count : nat) : M files unit :=
  mean ← lift (truediv (inject_Z (sum dts)) (inject_Z (len dts)));
  let avg_dt := (mean / inject_Z 1000000)%Q in
  print "🎞";;
  print (" Average dt:   " +:+ format_f 4 avg_dt +:+ " s");;
  in_fps ← lift (truediv 1 avg_dt);
  print (" Average fps:  " +:+ format_f 1 in_fps);;
  in_fps ← lift (truediv 1 avg_dt);
  out_fps ← lift (truediv in_fps slowx);
  print (" Output fps:   " +:+ format_f 1 out_fps);;
  print (" Frames:       " +:+ str_int (Z.of_nat line_count));;
  print (" Video length: "
         +:+ format_f 1 (inject_Z (Z.of_nat line_count) * avg_dt * slowx)%Q +:+ " s").

(** [rows] is what [csv.reader] yields for [tstamps.csv]. *)
Definition write_durations (temp_folder : string) (slowdown : Q)
    (rows : list (list string)) : M files unit :=
  open_w;;
  l ← write_durations_loop temp_folder slowdown (enumerate rows) (Locals 0 [] None);
  n ← match line_count l with
      | Some n => mret n
      | None => raise (UnboundLocalError "line_count")
      end;
  print_stats (dts l) slowdown n.






(** *** The data model of the design notes

    A [TimestampRecord] is a row of the log as the loop reads it, a
    [DurationRecord] what the loop derives from a row and its predecessor. *)
Record TimestampRecord := Timestamp { sequenceIndex : Z; captureMicros : Z }.

Record DurationRecord := Duration {
  frameIndex : Z;
  deltaMicros : Z;
  displaySeconds : Q
}.

(** [row] is a log row that reads as [r]: columns 1 and 2 are there and
    [int] accepts them. *)
Definition reads_micros (row : list string) (m : Z) : Prop :=
  ∃ cell, row !! 2%nat = Some cell ∧ int cell = Ok m.
Definition reads_index (row : list string) (i : Z) : Prop :=
  ∃ cell, row !! 1%nat = Some cell ∧ int cell = Ok i.
Definition reads_as (row : list string) (r : TimestampRecord) : Prop :=
  reads_index row (sequenceIndex r) ∧ reads_micros row (captureMicros r).

(** The records of a log: one per row after the first, each against the row
    just before it. *)
Fixpoint duration_records (slowdown : Q) (previousMicros : Z)
    (log : list TimestampRecord) : list DurationRecord :=
  match log with
  | [] => []
  | r :: log' =>
      let deltaMicros := captureMicros r - previousMicros in
      Duration (sequenceIndex r) deltaMicros (display_seconds slowdown deltaMicros)
        :: duration_records slowdown (captureMicros r) log'
  end.

(** What the loop writes for one record. *)
Definition manifest_chunks (temp_folder : string) (slowdown : Q)
    (r : DurationRecord) : list string :=
  [file_line temp_folder (frameIndex r); nl;
   duration_line slowdown (deltaMicros r) +:+ nl].


(** The timestamp the loop holds after the rows of [log]. *)
Fixpoint last_read (previousMicros : Z) (log : list TimestampRecord) : Z :=
  match log with
  | [] => previousMicros
  | r :: log' => last_read (captureMicros r) log'
  end.

(** The locals of the loop after the rows of [log], started from [l] at
    the row number after [n]. *)
Definition locals_after (slowdown : Q) (n : nat) (log : list TimestampRecord)
    (l : locals) : locals :=
  Locals (last_read (last_microsecond l) log)
         (dts l ++ (deltaMicros <$> duration_records slowdown (last_microsecond l) log))
         (match log with
          | [] => line_count l
          | _ => Some (n + length log)%nat
          end).

(** ** The encoder call: [create_video] *)

Definition min_fps : Z := 25.

Definition ffmpeg_command (outfps : Z) (frame_loc output_name : string) : string :=
  "ffmpeg -loglevel warning -r " +:+ str_int outfps +:+ " -f concat -safe 0 -i "
  +:+ frame_loc +:+ "\ffmpeg_concats.txt -vcodec libx264 -x264-params log-level=-1:lossless=1 -b:v 1M -pix_fmt yuv420p -vf "
  +:+ dquote +:+ "pad=ceil(iw/2)*2:ceil(ih/2)*2" +:+ dquote +:+ " "
  +:+ output_name +:+ " -y".

(** The frame rate of the command. *)
Definition output_fps (slowdown input_fps : Q) : outcome Z :=
  match truediv input_fps slowdown with
  | Ok x =>
      let outfps := round x in
      Ok (if outfps <? min_fps then outfps else min_fps)
  | Raise e => Raise e
  end.

(** The world of [create_video] is the list of commands given to
    [subprocess.run]. *)
Definition create_video (frame_loc output_name : string) (slowdown input_fps : Q)
    : M (list string) unit :=
  outfps ← lift (output_fps slowdown input_fps);
  modify (λ cmds, cmds ++ [ffmpeg_command outfps frame_loc output_name]).

(** ** The file system and the objects of the interpreter *)

Inductive node := File | Dir.

Global Instance node_eq_dec : EqDecision node.
Proof. solve_decision. Defined.

(** A [str] object: the interpreter tells two objects apart by identity
    ([is], [is not]) whatever their text. *)
Record str := Str { ob_id : nat; ob_val : string }.

Record world := World {
  disk : gmap (list string) node;
  next_id : nat;
  console : list string
}.

Definition set_disk (d : gmap (list string) node) (w : world) : world :=
  World d (next_id w) (console w).

Definition echo (s : string) : M world unit :=
  modify (λ w, World (disk w) (next_id w) (console w ++ [s])).

(** A new [str] object; its identity differs from every object made
    before. The interpreter shares the empty string and the one-character
    strings, so this is the allocation of a text of two characters or more. *)
Definition new_str (s : string) : M world str :=
  λ w, (Ok (Str (next_id w) s), World (disk w) (S (next_id w)) (console w)).

Definition is_not (a b : str) : bool := negb (ob_id a =? ob_id b)%nat.

Module OS.

(** The node at a path; the empty path is the root above the drives. *)
Definition node_at (d : gmap (list string) node) (p : list string) : option node :=
  match p with
  | [] => Some Dir
  | _ => d !! p
  end.

Definition parent (p : list string) : list string := removelast p.

(** [child_name dir p] is [Some n] when [p] is the entry [n] of [dir]. *)
Fixpoint child_name (dir p : list string) : option string :=
  match dir, p with
  | [], [n] => Some n
  | a :: dir', b :: p' => if decide (a = b) then child_name dir' p' else None
  | _, _ => None
  end.

Definition entries (dir : list string) (d : gmap (list string) node) : list string :=
  omap (child_name dir) (map fst (map_to_list d)).

(** [os.path.exists(p)] *)
Definition path_exists (p : list string) : M world bool :=
  λ w, (Ok (bool_decide (is_Some (node_at (disk w) p))), w).

(** [os.listdir(p)] *)
Definition listdir (p : list string) : M world (list string) :=
  λ w, match node_at (disk w) p with
       | Some Dir => (Ok (entries p (disk w)), w)
       | Some File => (Raise (WindowsError NotADirectoryError), w)
       | None => (Raise (WindowsError FileNotFoundError), w)
       end.

(** [os.mkdir(p)] *)
Definition mkdir (p : list string) : M world unit :=
  λ w, match node_at (disk w) p with
       | Some _ => (Raise (WindowsError FileExistsError), w)
       | None =>
           match node_at (disk w) (parent p) with
           | Some Dir => (Ok tt, set_disk (<[p := Dir]> (disk w)) w)
           | _ => (Raise (WindowsError FileNotFoundError), w)
           end
       end.

(** [os.makedirs(p)], by recursion on the reversed path: the missing
    ancestors are made first, then the leaf with [mkdir]. *)
Fixpoint makedirs_rev (rp : list string) : M world unit :=
  match rp with
  | [] => mkdir []
  | tail :: rhead =>
      (match rhead with
       | [] => mret tt
       | _ =>
           head_exists ← path_exists (rev rhead);
           if head_exists : bool then mret tt
           else λ w, match makedirs_rev rhead w with
                     | (Raise (WindowsError FileExistsError), w') => (Ok tt, w')
                     | r => r
                     end
       end);;
      mkdir (rev (tail :: rhead))
  end.
Definition makedirs (p : list string) : M world unit := makedirs_rev (rev p).

(** [os.remove(p)]: a plain file is deleted, a directory is refused. *)
Definition remove (p : list string) : M world unit :=
  λ w, match node_at (disk w) p with
       | Some File => (Ok tt, set_disk (delete p (disk w)) w)
       | Some Dir => (Raise (WindowsError PermissionError), w)
       | None => (Raise (WindowsError FileNotFoundError), w)
       end.

(** [shutil.rmtree(p)]: the directory and everything below it. *)
Definition rmtree (p : list string) : M world unit :=
  λ w, match node_at (disk w) p with
       | Some Dir =>
           (Ok tt, set_disk (filter (λ kv, ¬ p `prefix_of` kv.1) (disk w)) w)
       | Some File => (Raise (WindowsError NotADirectoryError), w)
       | None => (Raise (WindowsError FileNotFoundError), w)
       end.

End OS.

(** *** Shapes of a disk *)

(** Every entry sits in a directory. *)
Definition well_formed (d : gmap (list string) node) : Prop :=
  map_Forall (λ k _, OS.node_at d (OS.parent k) = Some Dir) d.

(** The directory at [p] holds plain files only. *)
Definition plain_files_only (d : gmap (list string) node) (p : list string) : Prop :=
  Forall (λ n, d !! (p ++ [n]) = Some File) (OS.entries p d).

(** No plain file is in the way on the reversed path [rp] or above it. *)
Fixpoint no_file_on (d : gmap (list string) node) (rp : list string) : bool :=
  match rp with
  | [] => true
  | _ :: rhead =>
      negb (bool_decide (d !! rev rp = Some File)) && no_file_on d rhead
  end.

(** An empty directory is at [p]. *)
Definition empty_dir (d : gmap (list string) node) (p : list string) : Prop :=
  d !! p = Some Dir ∧ OS.entries p d = [].

(** The disk without the entries [names] of [p]. *)
Definition remove_all (p : list string) (names : list string)
    (d : gmap (list string) node) : gmap (list string) node :=
  foldl (λ d n, delete (p ++ [n]) d) d names.

(** ** Finding the shared drive: [test_drive] *)

(** The root of drive [dr], the path that ["W://"], [fr"{dr}:\\"] and
    [fr"{dr}:/"] all name. *)
Definition drive_root (dr : string) : list string := [dr +:+ ":"].

Definition test_drive : M world string :=
  w_exists ← OS.path_exists (drive_root "W");
  if w_exists : bool then mret "W"
  else
    y_exists ← OS.path_exists (drive_root "Y");
    if y_exists : bool then mret "Y"
    else
      x_exists ← OS.path_exists (drive_root "X");
      if x_exists : bool then mret "X"
      else raise (WindowsError (Message "No shared drive found!")).

(** The drives in the order [test_drive] tries them, and whether the root
    of a drive is there. *)
Definition candidates : list string := ["W"; "Y"; "X"].

Definition reachable (w : world) (dr : string) : bool :=
  bool_decide (is_Some (OS.node_at (disk w) (drive_root dr))).

(** ** The worker *)

Record ProcessingWorker := Worker {
  slowx : Q;
  outname : string;
  fps : Q;
  drive : string
}.

(** [ProcessingWorker.__init__] *)
Definition init (slowx : Q) (outname : string) (fps : Q) : M world ProcessingWorker :=
  dr ← test_drive;
  mret (Worker slowx outname fps dr).

Definition waiting_message : string := "🎞 Waiting for camera data...".
Definition transfer_message : string :=
  "📁 Transferring files and writing durations...".

(** [ProcessingWorker.watch_and_clear]. Between the two messages the
    method sleeps until [tstamps.csv] is on the drive; the embedding is of a
    call that gets past the wait. Then the temp folder is created, or
    cleared when creating it fails. *)
Definition watch_and_clear (self : ProcessingWorker) (temp_path : list string)
    : M world unit :=
  echo waiting_message;;
  echo transfer_message;;
  try_except_WindowsError
    (OS.makedirs temp_path)
    (names ← OS.listdir temp_path;
     for_each names (λ f, OS.remove (temp_path ++ [f]))).

(** [[f for f in listing if f is not f"{outname}.mp4"]]: the f-string is
    evaluated once per element and gives a new object each time. *)
Fixpoint keep_others (outname : string) (listing : list str) : M world (list str) :=
  match listing with
  | [] => mret []
  | f :: listing' =>
      excluded ← new_str (outname +:+ ".mp4");
      rest ← keep_others outname listing';
      mret (if is_not f excluded then f :: rest else rest)
  end.

(** [os.listdir] returns a list of new [str] objects. *)
Fixpoint new_strs (names : list string) : M world (list str) :=
  match names with
  | [] => mret []
  | n :: names' =>
      o ← new_str n;
      os ← new_strs names';
      mret (o :: os)
  end.

(** The objects [new_strs] makes when the next identity is [i]. *)
Fixpoint strs_from (i : nat) (names : list string) : list str :=
  match names with
  | [] => []
  | n :: names' => Str i n :: strs_from (S i) names'
  end.

(** [ProcessingWorker.tidy_up] *)
Definition tidy_up (self : ProcessingWorker) (temp_dir : list string) : M world unit :=
  echo "🗑️ Cleaning up...";;
  OS.rmtree temp_dir;;
  names ← OS.listdir (drive_root (drive self));
  listing ← new_strs names;
  filelist ← keep_others (outname self) listing;
  for_each filelist (λ f, OS.remove (drive_root (drive self) ++ [ob_val f]));;
  echo "Finished".

(** ** Staging and converting: [move_and_convert_to_tiff]

    The calls to the collaborators ([shutil], [rawpy], [imageio]) are
    recorded with the path strings they are given; a handle of [rawpy] is
    named by the path it was opened on. *)
Inductive call :=
  | Copy (src dst : string)
  | Imread (path : string)
  | Postprocess (handle : string)
  | Imsave (path : string) (handle : string)
  | Close (handle : string).

Definition do_call (c : call) : M (list call) unit := modify (λ t, t ++ [c]).

(** One iteration of the loop; [raw] is the local variable of that name,
    unbound until a raw capture has been read. *)
Definition stage_file (temp_folder drv filename : string) (raw : option string)
    : M (list call) (option string) :=
  if endswith filename ".all" || endswith filename ".csv" then
    let fpath := drv +:+ ":\\" +:+ filename in
    do_call (Copy fpath temp_folder);;
    if endswith filename ".all" then
      let newpath := temp_folder +:+ "\\" +:+ filename in
      do_call (Imread newpath);;
      do_call (Postprocess newpath);;
      do_call (Imsave (drop_last 8 newpath +:+ ".tiff") newpath);;
      mret (Some newpath)
    else mret raw
  else mret raw.

Fixpoint stage_files (temp_folder drv : string) (file_list : list string)
    (raw : option string) : M (list call) (option string) :=
  match file_list with
  | [] => mret raw
  | filename :: file_list' =>
      raw' ← stage_file temp_folder drv filename raw;
      stage_files temp_folder drv file_list' raw'
  end.

(** [file_list] is the listing of the drive that [os.listdir] returned.
    The two readings of the clock and the line printed from them at the end
    are left out. *)
Definition move_and_convert_to_tiff (temp_folder drv : string)
    (file_list : list string) : M (list call) unit :=
  raw ← stage_files temp_folder drv file_list None;
  match raw with
  | Some handle => do_call (Close handle)
  | None => raise (UnboundLocalError "raw")
  end.

(** ** More on the log: rows that do not read, and the statistics *)



(** The lines of the statistics for deltas that add up to [total] over [n]
    frames. *)
Definition stats_lines (total : Z) (n : nat) (slowx : Q) : list string :=
  let avg_dt := (inject_Z total / inject_Z (Z.of_nat n) / inject_Z 1000000)%Q in
  ["🎞";
   " Average dt:   " +:+ format_f 4 avg_dt +:+ " s";
   " Average fps:  " +:+ format_f 1 (1 / avg_dt)%Q;
   " Output fps:   " +:+ format_f 1 (1 / avg_dt / slowx)%Q;
   " Frames:       " +:+ str_int (Z.of_nat n);
   " Video length: " +:+ format_f 1 (inject_Z total * slowx / inject_Z 1000000)%Q +:+ " s"].

(** ** More on staging *)

(** The calls of one iteration of the staging loop, by the ending of the
    file name. *)
Definition stage_calls (temp_folder drv filename : string) : list call :=
  let fpath := drv +:+ ":\\" +:+ filename in
  let newpath := temp_folder +:+ "\\" +:+ filename in
  if endswith filename ".all" then
    [Copy fpath temp_folder; Imread newpath; Postprocess newpath;
     Imsave (drop_last 8 newpath +:+ ".tiff") newpath]
  else if endswith filename ".csv" then [Copy fpath temp_folder]
  else [].

(** The last raw capture of a listing. *)
Definition last_raw (file_list : list string) : option string :=
  last (filter (λ f, endswith f ".all" = true) file_list).

Definition is_close (c : call) : bool :=
  match c with Close _ => true | _ => false end.

Definition is_copy (c : call) : bool :=
  match c with Copy _ _ => true | _ => false end.

(** ** More on cleaning up *)

Definition cleaning_message : string := "🗑️ Cleaning up...".

(** The disk without the folder at [p] and what is below it. *)
Definition without_tree (p : list string) (d : gmap (list string) node)
    : gmap (list string) node :=
  filter (λ kv, ¬ p `prefix_of` kv.1) d.

(** ** Path texts *)

Definition is_sep (c : ascii) : bool := Ascii.eqb c "\" || Ascii.eqb c "/".

(** The runs of a path text between separators, empty ones included. *)
Fixpoint components (s : string) : list string :=
  match s with
  | EmptyString => [""]
  | String c s' =>
      if is_sep c then "" :: components s'
      else match components s' with
           | [] => [String c ""]
           | l :: ls => String c l :: ls
           end
  end.

(** The path a text names: its components that are not empty. Backslash
    and slash both separate, and a doubled separator counts as one. *)
Definition win_path (s : string) : list string :=
  filter (λ c, c ≠ "") (components s).

(** ** The whole session: [run] *)

(** All that a session touches: the disk and the objects of the
    interpreter, what is printed, the calls of the staging, the chunks of
    the manifest, the commands given to the encoder, and the files handed
    to [os.startfile]. *)
Record session := Session {
  sys : gmap (list string) node;
  ids : nat;
  out : list string;
  staged : list call;
  manifest : list string;
  commands : list string;
  started : list string
}.

(** A computation on a part of the session. *)
Definition zoom {S T A} (view : T → S) (update : S → T → T) (m : M S A) : M T A :=
  λ t, match m (view t) with (r, s') => (r, update s' t) end.

Definition in_world {A} : M world A → M session A :=
  zoom (λ s, World (sys s) (ids s) (out s))
       (λ w s, Session (disk w) (next_id w) (console w)
                 (staged s) (manifest s) (commands s) (started s)).

Definition in_files {A} : M files A → M session A :=
  zoom (λ s, Files (manifest s) (out s))
       (λ f s, Session (sys s) (ids s) (stdout f)
                 (staged s) (txt_file f) (commands s) (started s)).

Definition in_staging {A} : M (list call) A → M session A :=
  zoom staged
       (λ t s, Session (sys s) (ids s) (out s) t (manifest s) (commands s) (started s)).

Definition in_commands {A} : M (list string) A → M session A :=
  zoom commands
       (λ c s, Session (sys s) (ids s) (out s) (staged s) (manifest s) c (started s)).

(** [os.startfile(name)] *)
Definition startfile (name : string) : M session unit :=
  modify (λ s, Session (sys s) (ids s) (out s) (staged s) (manifest s) (commands s)
                 (started s ++ [name])).

Definition video_message : string := "📽 Creating video...".

(** [ProcessingWorker.run]. [cwd] is the text [os.getcwd()] returns and
    [rows] what the csv reader yields for the log on the drive; the log is
    in the temp folder, to be opened, when the staging has copied it. *)
Definition run (self : ProcessingWorker) (cwd : string)
    (rows : list (list string)) : M session unit :=
  let tempdir := cwd +:+ "\temp" in
  in_world (watch_and_clear self (win_path tempdir));;
  file_list ← in_world (OS.listdir (drive_root (drive self)));
  in_staging (move_and_convert_to_tiff tempdir (drive self) file_list);;
  (if bool_decide ("tstamps.csv" ∈ file_list)
   then in_files (write_durations tempdir (slowx self) rows)
   else raise (WindowsError FileNotFoundError));;
  in_files (print video_message);;
  in_commands (create_video tempdir (outname self) (slowx self) (fps self));;
  startfile (outname self);;
  in_world (tidy_up self (win_path tempdir)).

(** The session when the wait of [watch_and_clear] is over: the log is on
    the drive, whose root holds plain files only, and the temp folder, off
    the drive, is free or is a folder of plain files. *)
Definition session_ready (self : ProcessingWorker) (cwd : string) (s : session) : Prop :=
  let temp_path := win_path (cwd +:+ "\temp") in
  let root := drive_root (drive self) in
  well_formed (sys s) ∧
  ¬ root `prefix_of` temp_path ∧
  ((sys s !! temp_path = None ∧ no_file_on (sys s) (rev temp_path) = true) ∨
   (sys s !! temp_path = Some Dir ∧ plain_files_only (sys s) temp_path)) ∧
  sys s !! root = Some Dir ∧
  plain_files_only (sys s) root ∧
  sys s !! (root ++ ["tstamps.csv"]) = Some File.

(** ** Sample inputs *)

(** The sample log of the design notes: a baseline row and three frames. *)
Definition sample_log : list (list string) :=
  [["t"; "seq"; "0"]; ["t"; "0"; "1000"]; ["t"; "1"; "3000"]; ["t"; "2"; "4500"]].

(** A world where only drive X is mounted, and one with no drive. *)
Definition only_x : world :=
  World (list_to_map [(["C:"], Dir); (["X:"], Dir); (["X:"; "tstamps.csv"], File)]) 0 [].
Definition no_drive : world := World (list_to_map [(["C:"], Dir)]) 0 [].

(** A working directory with a temp folder left over from an earlier run,
    the same with a folder inside the temp folder, and one with no temp
    folder yet. *)
Definition temp : list string := ["C:"; "cwd"; "temp"].

Definition left_over : world :=
  World (list_to_map [(["C:"], Dir); (["C:"; "cwd"], Dir); (temp, Dir);
                      (temp ++ ["tstamps.csv"], File);
                      (temp ++ ["out.000001.tiff"], File);
                      (["X:"], Dir); (["X:"; "tstamps.csv"], File)]) 0 [].

Definition nested : world :=
  World (list_to_map [(["C:"], Dir); (["C:"; "cwd"], Dir); (temp, Dir);
                      (temp ++ ["tstamps.csv"], File);
                      (temp ++ ["old"], Dir);
                      (["X:"], Dir); (["X:"; "tstamps.csv"], File)]) 0 [].

Definition fresh : world :=
  World (list_to_map [(["C:"], Dir); (["C:"; "cwd"], Dir);
                      (["X:"], Dir); (["X:"; "tstamps.csv"], File)]) 0 [].

Definition worker : ProcessingWorker := Worker 30 "test_01.mp4" 440 "X".

(** The drive after a run: the log, a raw capture and two videos, one named
    as the filter of [tidy_up] spells it and one as [outname] is. *)
Definition after_run : world :=
  World (list_to_map [(["C:"], Dir); (["C:"; "cwd"], Dir); (temp, Dir);
                      (temp ++ ["tstamps.csv"], File);
                      (["X:"], Dir);
                      (["X:"; "tstamps.csv"], File);
                      (["X:"; "out.000001.raw.all"], File);
                      (["X:"; "test_01.mp4.mp4"], File);
                      (["X:"; "test_01.mp4"], File)]) 0 [].


Definition log_only_session : session := Session (disk fresh) 0 [] [] [] [] [].

(** A plain file where the temp folder should be. *)
Definition file_at_temp : world :=
  World (list_to_map [(["C:"], Dir); (["C:"; "cwd"], Dir); (temp, File)]) 0 [].

(** The drive after a run with a folder left on it. *)
Definition folder_on_drive : world :=
  World (list_to_map [(["C:"], Dir); (["C:"; "cwd"], Dir); (temp, Dir);
                      (temp ++ ["tstamps.csv"], File);
                      (["X:"], Dir);
                      (["X:"; "old"], Dir)]) 0 [].


(** * Properties *)

(** Unfolds the plumbing of the monad in the goal. *)
Ltac run_m :=
  unfold mbind, M_bind, mret, M_ret, bind, ret, raise, lift, modify, get, put,
    try_except_WindowsError in *;
  simpl.

(** ** The Python runtime on examples *)

Example int_examples :
  int "42" = Ok 42 ∧ int " -7 " = Ok (-7) ∧ int "1_000" = Ok 1000 ∧
  int "007" = Ok 7 ∧ int "" = Raise ValueError ∧ int "4 2" = Raise ValueError ∧
  int "1__0" = Raise ValueError ∧ int "frame" = Raise ValueError.
Proof. repeat split; reflexivity. Qed.

Example format_examples :
  format_0d 6 17 = "000017" ∧ format_0d 6 (-5) = "-00005" ∧
  format_0d 6 1234567 = "1234567" ∧
  format_0f 8 6 (3 # 100) = "0.030000" ∧ format_0f 8 6 (-(3 # 100)) = "-0.030000" ∧
  format_f 1 (2000 # 3) = "666.7" ∧ format_f 4 (15 # 10000) = "0.0015" ∧
  round (5 # 2) = 2 ∧ round (7 # 2) = 4 ∧ round (44 # 3) = 15.
Proof. repeat split; vm_compute; reflexivity. Qed.

(** ** The loop of [write_durations] *)

Section DurationLoop.

Variables (temp_folder : string) (slowdown : Q).

(** The first row only seeds [last_microsecond]. *)
Lemma write_durations_row_first row m l w :
  reads_micros row m →
  write_durations_row temp_folder slowdown 0 row l w
  = (Ok (Locals m (dts l) (Some 0%nat)), w).
Proof.
  intros (cell & Hcell & Hint).
  unfold write_durations_row, index. run_m.
  by rewrite Hcell, Hint.
Qed.

(** A later row appends its delta and writes its three chunks. *)
Lemma write_durations_row_next n row r l w :
  reads_as row r →
  let dt := captureMicros r - last_microsecond l in
  write_durations_row temp_folder slowdown (S n) row l w
  = (Ok (Locals (captureMicros r) (dts l ++ [dt]) (Some (S n))),
     Files (txt_file w
            ++ manifest_chunks temp_folder slowdown
                 (Duration (sequenceIndex r) dt (display_seconds slowdown dt)))
           (stdout w)).
Proof.
  intros [(c1 & Hc1 & Hi1) (c2 & Hc2 & Hi2)] dt.
  unfold write_durations_row, index, write. run_m.
  rewrite Hc2, Hi2, Hc1, Hi1. simpl.
  unfold manifest_chunks. simpl. by rewrite <- !app_assoc.
Qed.

Lemma write_durations_loop_next data : ∀ log n l w,
  Forall2 reads_as data log →
  write_durations_loop temp_folder slowdown (enumerate_from (S n) data) l w
  = (Ok (locals_after slowdown n log l),
     Files (txt_file w
            ++ concat (manifest_chunks temp_folder slowdown
                         <$> duration_records slowdown (last_microsecond l) log))
           (stdout w)).
Proof.
  induction data as [|row data IH]; intros log n l w Hread.
  - apply Forall2_nil_inv_l in Hread as ->. unfold locals_after. simpl. run_m.
    rewrite !app_nil_r. by destruct l, w.
  - apply Forall2_cons_inv_l in Hread as (r & log' & Hr & Hrest & ->).
    simpl. run_m.
    rewrite (write_durations_row_next n row r l w Hr). simpl.
    rewrite (IH log' (S n) _ _ Hrest). simpl.
    unfold locals_after. simpl. rewrite <- !app_assoc. simpl.
    replace (match log' with [] => Some (S n) | _ => Some (S (n + length log')) end)
      with (Some (n + S (length log'))%nat); [done|].
    destruct log'; simpl; f_equal; lia.
Qed.

End DurationLoop.

(** ** Texts and numerals *)

Lemma string_app_nil (b : string) : "" +:+ b = b.
Proof. reflexivity. Qed.

Lemma string_app_cons x (a b : string) : String x a +:+ b = String x (a +:+ b).
Proof. reflexivity. Qed.

Lemma string_app_assoc (a b c : string) : (a +:+ b) +:+ c = a +:+ (b +:+ c).
Proof.
  induction a as [|x a IH]; [done|]. rewrite !string_app_cons. by f_equal.
Qed.

Lemma string_app_length (a b : string) :
  String.length (a +:+ b) = (String.length a + String.length b)%nat.
Proof.
  induction a as [|x a IH]; [done|]. rewrite string_app_cons. simpl. by f_equal.
Qed.





Lemma zeros_length n : String.length (zeros n) = n.
Proof. induction n; simpl; congruence. Qed.

















(** ** Reading a numeral back *)













(** ** The manifest *)

Section Manifest.

Variables (temp_folder : string) (slowdown : Q).











End Manifest.

(** ** A log that reads well *)

Lemma write_durations_loop_log temp_folder slowdown row0 m0 data log w :
  reads_micros row0 m0 →
  Forall2 reads_as data log →
  write_durations_loop temp_folder slowdown (enumerate (row0 :: data))
    (Locals 0 [] None) w
  = (Ok (locals_after slowdown 0 log (Locals m0 [] (Some 0%nat))),
     Files (txt_file w
            ++ concat (manifest_chunks temp_folder slowdown
                         <$> duration_records slowdown m0 log))
           (stdout w)).
Proof.
  intros Hbase Hdata. unfold enumerate. simpl. run_m.
  rewrite (write_durations_row_first temp_folder slowdown row0 m0 _ w Hbase).
  simpl. by rewrite (write_durations_loop_next temp_folder slowdown data log 0 _ w Hdata).
Qed.


Lemma sample_log_reads :
  reads_micros ["t"; "seq"; "0"] 0 ∧
  Forall2 reads_as [["t"; "0"; "1000"]; ["t"; "1"; "3000"]; ["t"; "2"; "4500"]]
    [Timestamp 0 1000; Timestamp 1 3000; Timestamp 2 4500].
Proof.
  split; [by exists "0"|].
  repeat constructor; simpl; eexists; split; reflexivity.
Defined.

(** ** The records and the manifest of a log *)





(** ** When the statistics raise *)









(** C3. A log of the baseline row alone, or an empty log, gives no record.
    The statistics then raise: [ZeroDivisionError] from the mean of no
    deltas for the baseline alone, [UnboundLocalError] for the empty log,
    whose loop never binds [line_count]. No explicit check for the empty
    log comes first. *)
Theorem write_durations_empty_log_raises temp_folder slowdown row0 m0 w :
  reads_micros row0 m0 →
  write_durations temp_folder slowdown [row0] w
  = (Raise ZeroDivisionError, Files [] (stdout w)) ∧
  write_durations temp_folder slowdown [] w
  = (Raise (UnboundLocalError "line_count"), Files [] (stdout w)).
Proof.
  intros Hbase. split; [|done].
  unfold write_durations, open_w. unfold mbind, M_bind, bind, modify.
  by rewrite (write_durations_loop_log _ _ row0 m0 [] [] _ Hbase (Forall2_nil_2 _ _ _)).
Qed.

Lemma write_durations_empty_log_raises_witness :
  reads_micros ["t"; "seq"; "0"] 0 ∧
  write_durations "C:\temp" 30 [["t"; "seq"; "0"]] (Files [] [])
  = (Raise ZeroDivisionError, Files [] []).
Proof.
  split; [exact (proj1 sample_log_reads)|].
  exact (proj1 (write_durations_empty_log_raises "C:\temp" 30 _ _ (Files [] [])
                  (proj1 sample_log_reads))).
Defined.



Example write_durations_duplicate_timestamps :
  write_durations "C:\temp" 30 [["t"; "seq"; "5"]; ["t"; "1"; "5"]] (Files [] [])
  = (Raise ZeroDivisionError,
     Files ["file 'C:\temp\out.000001.tiff'"; nl; "duration 0.000000" +:+ nl]
           ["🎞"; " Average dt:   0.0000 s"]).
Proof. vm_compute. reflexivity. Qed.

Example write_durations_negative_delta :
  write_durations "C:\temp" 30 [["t"; "seq"; "5"]; ["t"; "1"; "3"]] (Files [] [])
  = (Ok tt,
     Files ["file 'C:\temp\out.000001.tiff'"; nl; "duration -0.000060" +:+ nl]
           ["🎞"; " Average dt:   -0.0000 s"; " Average fps:  -500000.0";
            " Output fps:   -16666.7"; " Frames:       1"; " Video length: -0.0 s"]).
Proof. vm_compute. reflexivity. Qed.

(** ** The drive and the encoder *)

(** C5. [test_drive] tries W, then Y, then X, and returns the first whose
    root is there; when only X is there it returns X, and when none is it
    raises the "No shared drive found!" error. It does not change the
    world. *)
Theorem test_drive_first_reachable w :
  test_drive w
  = (match List.find (reachable w) candidates with
     | Some dr => Ok dr
     | None => Raise (WindowsError (Message "No shared drive found!"))
     end, w) ∧
  (reachable w "W" = false → reachable w "Y" = false → reachable w "X" = true →
   test_drive w = (Ok "X", w)) ∧
  ((∀ dr, dr ∈ candidates → reachable w dr = false) →
   test_drive w = (Raise (WindowsError (Message "No shared drive found!")), w)).
Proof.
  assert (Hrun : test_drive w
    = (if reachable w "W" then Ok "W"
       else if reachable w "Y" then Ok "Y"
       else if reachable w "X" then Ok "X"
       else Raise (WindowsError (Message "No shared drive found!")), w)).
  { unfold test_drive, OS.path_exists, reachable. run_m.
    by repeat (case_bool_decide; simpl). }
  split; [|split].
  - rewrite Hrun. unfold candidates. simpl.
    by destruct (reachable w "W"), (reachable w "Y"), (reachable w "X").
  - intros HW HY HX. by rewrite Hrun, HW, HY, HX.
  - intros Hnone. rewrite Hrun.
    rewrite !Hnone; [done|unfold candidates; set_solver..].
Qed.

Lemma test_drive_first_reachable_witness :
  reachable only_x "W" = false ∧ reachable only_x "Y" = false ∧
  reachable only_x "X" = true ∧ test_drive only_x = (Ok "X", only_x) ∧
  (∀ dr, dr ∈ candidates → reachable no_drive dr = false) ∧
  test_drive no_drive = (Raise (WindowsError (Message "No shared drive found!")), no_drive).
Proof.
  assert (Hnone : ∀ dr, dr ∈ candidates → reachable no_drive dr = false).
  { intros dr Hdr. unfold candidates in Hdr.
    apply elem_of_cons in Hdr as [->|Hdr]; [reflexivity|].
    apply elem_of_cons in Hdr as [->|Hdr]; [reflexivity|].
    apply elem_of_cons in Hdr as [->|Hdr]; [reflexivity|].
    by apply elem_of_nil in Hdr. }
  split; [reflexivity|]. split; [reflexivity|]. split; [reflexivity|].
  split; [exact (proj1 (proj2 (test_drive_first_reachable only_x)) eq_refl eq_refl eq_refl)|].
  split; [exact Hnone|].
  exact (proj2 (proj2 (test_drive_first_reachable no_drive)) Hnone).
Defined.

(** [round] gives a nearest integer. *)
Lemma round_nearest x :
  2 * Z.abs (Qnum x - round x * Z.pos (Qden x)) ≤ Z.pos (Qden x).
Proof.
  unfold round.
  pose proof (Z.div_mod (Qnum x) (Z.pos (Qden x)) ltac:(lia)) as Hdm.
  pose proof (Z.mod_pos_bound (Qnum x) (Z.pos (Qden x)) ltac:(lia)) as Hb.
  set (q := Qnum x `div` Z.pos (Qden x)) in *.
  set (r := Qnum x `mod` Z.pos (Qden x)) in *.
  repeat case_match; lia.
Qed.



(** ** The file system *)

Section FileSystem.

Implicit Types (d : gmap (list string) node) (p k : list string) (n : string).

Lemma child_name_Some p : ∀ k n, OS.child_name p k = Some n ↔ k = p ++ [n].
Proof.
  induction p as [|a p IH]; intros k n; simpl.
  - destruct k as [|b [|c k]]; split; intros; simplify_eq; done.
  - destruct k as [|b k]; [split; intros; simplify_eq|].
    case_decide as Hab.
    + subst. rewrite IH. split; intros; simplify_eq; done.
    + split; intros; simplify_eq.
Qed.

(** The listing of [p] names exactly the paths one step below [p]. *)
Lemma elem_of_entries d p n : n ∈ OS.entries p d ↔ is_Some (d !! (p ++ [n])).
Proof.
  unfold OS.entries. rewrite list_elem_of_omap. split.
  - intros (k & Hk & Hn). apply child_name_Some in Hn as ->.
    apply list_elem_of_fmap in Hk as ([k' v] & -> & Hkv).
    apply elem_of_map_to_list in Hkv. simpl in *. by exists v.
  - intros [v Hv]. exists (p ++ [n]). split; [|by apply child_name_Some].
    apply list_elem_of_fmap. exists (p ++ [n], v). split; [done|].
    by apply elem_of_map_to_list.
Qed.

Lemma NoDup_omap_inj {A B} (f : A → option B) (l : list A) :
  (∀ x x' y, f x = Some y → f x' = Some y → x = x') →
  NoDup l → NoDup (omap f l).
Proof.
  intros Hinj. induction 1 as [|x l Hx Hl IH]; simpl; [constructor|].
  destruct (f x) as [y|] eqn:Hfx; [|done].
  constructor; [|done].
  intros (x' & Hx' & Hfx')%list_elem_of_omap.
  by rewrite (Hinj x x' y Hfx Hfx') in Hx.
Qed.

Lemma NoDup_entries d p : NoDup (OS.entries p d).
Proof.
  unfold OS.entries. apply NoDup_omap_inj.
  - intros k k' n Hk Hk'. apply child_name_Some in Hk, Hk'. congruence.
  - apply NoDup_fst_map_to_list.
Qed.

Lemma snoc_inj p n n' : p ++ [n] = p ++ [n'] → n = n'.
Proof. intros H. by apply app_inv_head in H as [= ->]. Qed.

Lemma node_at_snoc d p n : OS.node_at d (p ++ [n]) = d !! (p ++ [n]).
Proof. by destruct p. Qed.

Lemma parent_snoc p n : OS.parent (p ++ [n]) = p.
Proof. apply removelast_last. Qed.

(** Lookups in the disk after [remove_all]. *)
Lemma remove_all_lookup_in names : ∀ d p n,
  n ∈ names → remove_all p names d !! (p ++ [n]) = None.
Proof.
  unfold remove_all.
  induction names as [|m names IH] using rev_ind; intros d p n Hn.
  - by apply elem_of_nil in Hn.
  - rewrite foldl_snoc. apply elem_of_app in Hn as [Hn|Hn].
    + destruct (decide (p ++ [m] = p ++ [n])) as [->|Hne].
      * apply lookup_delete_eq.
      * rewrite lookup_delete_ne by done. by apply IH.
    + apply list_elem_of_singleton in Hn as ->. apply lookup_delete_eq.
Qed.

Lemma remove_all_lookup_out names : ∀ d p k,
  (∀ n, n ∈ names → k ≠ p ++ [n]) → remove_all p names d !! k = d !! k.
Proof.
  unfold remove_all.
  induction names as [|m names IH] using rev_ind; intros d p k Hk; [done|].
  rewrite foldl_snoc, lookup_delete_ne.
  - apply IH. intros n Hn. apply Hk, elem_of_app. by left.
  - intros Heq. apply (Hk m); [|done]. apply elem_of_app. right. by constructor.
Qed.

(** Removing every entry of [p] leaves [p] without entries. *)
Lemma entries_remove_all d p : OS.entries p (remove_all p (OS.entries p d) d) = [].
Proof.
  apply elem_of_nil_inv. intros n Hn. apply elem_of_entries in Hn as Hsome.
  destruct (decide (n ∈ OS.entries p d)) as [Hin|Hout].
  - rewrite remove_all_lookup_in in Hsome by done. by destruct Hsome.
  - rewrite remove_all_lookup_out in Hsome.
    + by apply Hout, elem_of_entries.
    + intros m Hm Heq. apply snoc_inj in Heq as ->. done.
Qed.

Lemma for_each_cons {S A} (x : A) l (body : A → M S unit) (s : S) :
  for_each (x :: l) body s
  = match body x s with
    | (Ok _, s') => for_each l body s'
    | (Raise e, s') => (Raise e, s')
    end.
Proof. reflexivity. Qed.

Lemma remove_file d i c p n :
  d !! (p ++ [n]) = Some File →
  OS.remove (p ++ [n]) (World d i c) = (Ok tt, World (delete (p ++ [n]) d) i c).
Proof. intros H. unfold OS.remove, set_disk. simpl disk. by rewrite node_at_snoc, H. Qed.

Lemma remove_dir d i c p n :
  d !! (p ++ [n]) = Some Dir →
  OS.remove (p ++ [n]) (World d i c) = (Raise (WindowsError PermissionError), World d i c).
Proof. intros H. unfold OS.remove. simpl disk. by rewrite node_at_snoc, H. Qed.

(** The clearing loop over plain files removes them all. *)
Lemma remove_loop_files p names : ∀ d i c,
  NoDup names →
  (∀ n, n ∈ names → d !! (p ++ [n]) = Some File) →
  for_each names (λ f, OS.remove (p ++ [f])) (World d i c)
  = (Ok tt, World (remove_all p names d) i c).
Proof.
  induction names as [|m names IH]; intros d i c Hnd Hfiles; [done|].
  apply NoDup_cons in Hnd as [Hm Hnd].
  rewrite for_each_cons, remove_file by (apply Hfiles; by left).
  rewrite IH; [done|done|].
  intros n Hn. rewrite lookup_delete_ne.
  - apply Hfiles. by right.
  - intros Heq. apply snoc_inj in Heq as ->. done.
Qed.

(** The clearing loop stops at the first directory among the entries, and
    leaves every directory where it is. *)
Lemma remove_loop_dir p names : ∀ d i c,
  NoDup names →
  (∀ n, n ∈ names → is_Some (d !! (p ++ [n]))) →
  (∃ n, n ∈ names ∧ d !! (p ++ [n]) = Some Dir) →
  ∃ d',
    for_each names (λ f, OS.remove (p ++ [f])) (World d i c)
    = (Raise (WindowsError PermissionError), World d' i c) ∧
    ∀ k, d !! k = Some Dir → d' !! k = Some Dir.
Proof.
  induction names as [|m names IH]; intros d i c Hnd Hsome (n & Hn & Hdir).
  { by apply elem_of_nil in Hn. }
  apply NoDup_cons in Hnd as [Hm Hnd].
  rewrite for_each_cons.
  destruct (Hsome m ltac:(by left)) as [[|] Hv];
    [rewrite (remove_file _ _ _ _ _ Hv)|rewrite (remove_dir _ _ _ _ _ Hv)].
  - assert (Hne : ∀ n', n' ∈ names → p ++ [m] ≠ p ++ [n']).
    { intros n' Hn' Heq. apply snoc_inj in Heq as ->. done. }
    destruct (IH (delete (p ++ [m]) d) i c Hnd) as (d' & Hrun & Hkeep).
    + intros n' Hn'. rewrite lookup_delete_ne by by apply Hne.
      apply Hsome. by right.
    + apply elem_of_cons in Hn as [->|Hn]; [congruence|].
      exists n. split; [done|]. by rewrite lookup_delete_ne by by apply Hne.
    + exists d'. split; [done|]. intros k Hk. apply Hkeep.
      rewrite lookup_delete_ne; [done|congruence].
  - by exists d.
Qed.

End FileSystem.

(** ** [os.makedirs] *)

Section Makedirs.

Implicit Types (d : gmap (list string) node) (p k rp : list string) (n : string).

Lemma mkdir_exists d i c p :
  is_Some (OS.node_at d p) →
  OS.mkdir p (World d i c) = (Raise (WindowsError FileExistsError), World d i c).
Proof. intros [v Hv]. unfold OS.mkdir. simpl disk. by rewrite Hv. Qed.

Lemma mkdir_new d i c p n :
  d !! (p ++ [n]) = None →
  OS.node_at d p = Some Dir →
  OS.mkdir (p ++ [n]) (World d i c) = (Ok tt, World (<[p ++ [n] := Dir]> d) i c).
Proof.
  intros Hnew Hpar. unfold OS.mkdir, set_disk. simpl disk.
  by rewrite node_at_snoc, Hnew, parent_snoc, Hpar.
Qed.

Lemma path_exists_eq d i c p :
  OS.path_exists p (World d i c)
  = (Ok (bool_decide (is_Some (OS.node_at d p))), World d i c).
Proof. reflexivity. Qed.

(** One unfolding of [makedirs_rev] below a non-empty head. *)
Lemma makedirs_rev_step tail t rhead w :
  OS.makedirs_rev (tail :: t :: rhead) w
  = match OS.path_exists (rev (t :: rhead)) w with
    | (Ok true, w') => OS.mkdir (rev (tail :: t :: rhead)) w'
    | (Ok false, w') =>
        match OS.makedirs_rev (t :: rhead) w' with
        | (Ok _, w'') => OS.mkdir (rev (tail :: t :: rhead)) w''
        | (Raise (WindowsError FileExistsError), w'') =>
            OS.mkdir (rev (tail :: t :: rhead)) w''
        | (Raise e, w'') => (Raise e, w'')
        end
    | (Raise e, w') => (Raise e, w')
    end.
Proof.
  change (OS.makedirs_rev (tail :: t :: rhead) w)
    with (((head_exists ← OS.path_exists (rev (t :: rhead));
           if head_exists : bool then mret tt
           else λ w, match OS.makedirs_rev (t :: rhead) w with
                     | (Raise (WindowsError FileExistsError), w') => (Ok tt, w')
                     | r => r
                     end);;
          OS.mkdir (rev (tail :: t :: rhead))) w).
  unfold mbind, M_bind, bind, mret, M_ret, ret.
  destruct (OS.path_exists _ w) as [[[|]|e] w']; [done| |done].
  destruct (OS.makedirs_rev (t :: rhead) w') as [[[]|[[]| | | |]] w'']; done.
Qed.

(** Where the path is taken, [makedirs] raises [FileExistsError] and
    changes nothing, provided the directory above is there. *)
Lemma makedirs_exists d i c p :
  is_Some (OS.node_at d p) →
  is_Some (OS.node_at d (OS.parent p)) →
  OS.makedirs p (World d i c) = (Raise (WindowsError FileExistsError), World d i c).
Proof.
  intros Hp Hpar. unfold OS.makedirs.
  induction p as [|n q _] using rev_ind.
  { by apply mkdir_exists. }
  rewrite parent_snoc in Hpar. rewrite rev_unit.
  destruct (rev q) as [|t rhead] eqn:Hq.
  - assert (q = []) as -> by (by apply (f_equal (@rev string)) in Hq; rewrite rev_involutive in Hq).
    by apply mkdir_exists.
  - rewrite makedirs_rev_step, <- Hq.
    change (rev (n :: rev q)) with (rev (rev q) ++ [n]).
    rewrite rev_involutive, path_exists_eq.
    rewrite bool_decide_eq_true_2 by done.
    by apply mkdir_exists.
Qed.

Lemma no_file_on_cons d tail rhead :
  no_file_on d (tail :: rhead) = true →
  d !! (rev rhead ++ [tail]) ≠ Some File ∧ no_file_on d rhead = true.
Proof.
  simpl. intros [H1 H2]%andb_prop. split; [|done].
  apply negb_true_iff, bool_decide_eq_false in H1. done.
Qed.

(** Where nothing is at the path and no plain file is in the way,
    [makedirs] makes the directory, and the missing ones above it; it
    removes nothing and touches nothing off the path. *)
Lemma makedirs_rev_new rp : ∀ d i c,
  rp ≠ [] →
  d !! rev rp = None →
  no_file_on d rp = true →
  ∃ d',
    OS.makedirs_rev rp (World d i c) = (Ok tt, World d' i c) ∧
    d' !! rev rp = Some Dir ∧
    OS.node_at d' (OS.parent (rev rp)) = Some Dir ∧
    (∀ k v, d !! k = Some v → d' !! k = Some v) ∧
    (∀ k, ¬ k `prefix_of` rev rp → d' !! k = d !! k).
Proof.
  induction rp as [|tail rhead IH]; intros d i c Hne Hnew Hnf; [done|].
  apply no_file_on_cons in Hnf as [_ Hnf].
  change (rev (tail :: rhead)) with (rev rhead ++ [tail]) in *.
  rewrite parent_snoc.
  assert (Hfinish : ∀ d1,
    d1 !! (rev rhead ++ [tail]) = None →
    OS.node_at d1 (rev rhead) = Some Dir →
    (∀ k v, d !! k = Some v → d1 !! k = Some v) →
    (∀ k, ¬ k `prefix_of` rev rhead → d1 !! k = d !! k) →
    ∃ d',
      OS.mkdir (rev rhead ++ [tail]) (World d1 i c) = (Ok tt, World d' i c) ∧
      d' !! (rev rhead ++ [tail]) = Some Dir ∧
      OS.node_at d' (rev rhead) = Some Dir ∧
      (∀ k v, d !! k = Some v → d' !! k = Some v) ∧
      (∀ k, ¬ k `prefix_of` (rev rhead ++ [tail]) → d' !! k = d !! k)).
  { intros d1 Hnew1 Hpar1 Hkeep1 Hoff1.
    exists (<[rev rhead ++ [tail] := Dir]> d1).
    split; [by apply mkdir_new|]. split; [apply lookup_insert_eq|]. split.
    - destruct (rev rhead) as [|a l] eqn:E; [done|].
      unfold OS.node_at. rewrite lookup_insert_ne; [exact Hpar1|].
      intros Heq. apply (f_equal length) in Heq.
      rewrite length_app in Heq. simpl in Heq. lia.
    - split.
      + intros k v Hk. rewrite lookup_insert_ne; [by apply Hkeep1|].
        intros <-. congruence.
      + intros k Hk. rewrite lookup_insert_ne.
        * apply Hoff1. intros Hpre. apply Hk.
          etrans; [exact Hpre|]. by apply prefix_app_r.
        * intros <-. by apply Hk. }
  destruct rhead as [|t rh].
  - change (OS.makedirs_rev [tail] (World d i c))
      with (OS.mkdir (rev [] ++ [tail]) (World d i c)).
    by apply Hfinish.
  - rewrite makedirs_rev_step, path_exists_eq.
    change (rev (tail :: t :: rh)) with (rev (t :: rh) ++ [tail]).
    pose proof (no_file_on_cons _ _ _ Hnf) as [Hnofile _].
    change (rev (t :: rh)) with (rev rh ++ [t]) in *.
    rewrite node_at_snoc.
    destruct (d !! (rev rh ++ [t])) as [[|]|] eqn:Hhead; [done| |].
    + rewrite bool_decide_eq_true_2 by done.
      apply Hfinish; [done|by rewrite node_at_snoc|done|done].
    + rewrite bool_decide_eq_false_2 by (by intros [? ?]).
      destruct (IH d i c ltac:(done) Hhead Hnf) as (d1 & Hrun & Hdir & _ & Hkeep & Hoff).
      change (rev (t :: rh)) with (rev rh ++ [t]) in *.
      rewrite Hrun.
      apply Hfinish; [|by rewrite node_at_snoc|done|done].
      rewrite Hoff; [done|].
      intros Hpre. apply prefix_length in Hpre.
      rewrite !length_app in Hpre. simpl in Hpre. lia.
Qed.

End Makedirs.

(** ** Clearing the temp folder: [watch_and_clear] *)

Section Clearing.

Variable self : ProcessingWorker.

Implicit Types (d : gmap (list string) node) (p k : list string) (n : string).

Lemma snoc_ne p n : p ++ [n] ≠ p.
Proof.
  intros Heq. apply (f_equal length) in Heq.
  rewrite length_app in Heq. simpl in Heq. lia.
Qed.

Lemma node_at_Some d p v : d !! p = Some v → p = [] ∨ OS.node_at d p = Some v.
Proof. destruct p; [by left|by right]. Qed.

Lemma well_formed_parent d p v :
  well_formed d → d !! p = Some v → OS.node_at d (OS.parent p) = Some Dir.
Proof. intros Hwf Hp. exact (Hwf p v Hp). Qed.

(** In a well-formed disk nothing is below a path that is not there. *)
Lemma well_formed_no_orphan d p n :
  well_formed d → p ≠ [] → d !! p = None → d !! (p ++ [n]) = None.
Proof.
  intros Hwf Hne Hp. destruct (d !! (p ++ [n])) as [v|] eqn:Hv; [|done].
  apply (well_formed_parent _ _ _ Hwf) in Hv. rewrite parent_snoc in Hv.
  destruct p; [done|]. simpl in Hv. congruence.
Qed.

(** An existing folder of plain files: every entry is removed, nothing
    else is. *)
Lemma watch_and_clear_existing d i c p :
  p ≠ [] →
  d !! p = Some Dir →
  is_Some (OS.node_at d (OS.parent p)) →
  plain_files_only d p →
  watch_and_clear self p (World d i c)
  = (Ok tt, World (remove_all p (OS.entries p d) d) i (c ++ [waiting_message; transfer_message])).
Proof.
  intros Hne Hp Hpar Hfiles.
  unfold watch_and_clear, echo. unfold mbind, M_bind, bind, modify, try_except_WindowsError.
  simpl disk. simpl next_id. simpl console.
  rewrite <- (app_assoc c [waiting_message] [transfer_message]).
  change ([waiting_message] ++ [transfer_message])
    with [waiting_message; transfer_message].
  rewrite makedirs_exists; [|destruct p; [done|by exists Dir]|done].
  unfold OS.listdir. simpl disk.
  replace (OS.node_at d p) with (Some Dir) by (by destruct p).
  apply remove_loop_files; [apply NoDup_entries|].
  intros n Hn. unfold plain_files_only in Hfiles.
  rewrite Forall_forall in Hfiles. by apply Hfiles.
Qed.

(** A folder with a directory in it: the loop raises on that entry. *)
Lemma watch_and_clear_blocked d i c p n :
  d !! p = Some Dir →
  is_Some (OS.node_at d (OS.parent p)) →
  d !! (p ++ [n]) = Some Dir →
  ∃ d',
    watch_and_clear self p (World d i c)
    = (Raise (WindowsError PermissionError), World d' i (c ++ [waiting_message; transfer_message])) ∧
    ∀ k, d !! k = Some Dir → d' !! k = Some Dir.
Proof.
  intros Hp Hpar Hsub.
  unfold watch_and_clear, echo. unfold mbind, M_bind, bind, modify, try_except_WindowsError.
  simpl disk. simpl next_id. simpl console.
  rewrite <- (app_assoc c [waiting_message] [transfer_message]).
  change ([waiting_message] ++ [transfer_message])
    with [waiting_message; transfer_message].
  rewrite makedirs_exists; [|destruct p; [done|by exists Dir]|done].
  unfold OS.listdir. simpl disk.
  replace (OS.node_at d p) with (Some Dir) by (by destruct p).
  apply remove_loop_dir; [apply NoDup_entries| |].
  - intros m Hm. by apply elem_of_entries.
  - exists n. split; [|done]. apply elem_of_entries. by exists Dir.
Qed.

(** No folder yet: it is made, and nothing is removed. *)
Lemma watch_and_clear_new d i c p :
  p ≠ [] →
  d !! p = None →
  no_file_on d (rev p) = true →
  ∃ d',
    watch_and_clear self p (World d i c)
    = (Ok tt, World d' i (c ++ [waiting_message; transfer_message])) ∧
    d' !! p = Some Dir ∧
    OS.node_at d' (OS.parent p) = Some Dir ∧
    (∀ k v, d !! k = Some v → d' !! k = Some v) ∧
    (∀ k, ¬ k `prefix_of` p → d' !! k = d !! k).
Proof.
  intros Hne Hp Hnf.
  destruct (makedirs_rev_new (rev p) d i (c ++ [waiting_message; transfer_message]))
    as (d' & Hrun & Hprops).
  - intros Hrev. apply Hne. by rewrite <- (rev_involutive p), Hrev.
  - by rewrite rev_involutive.
  - done.
  - rewrite rev_involutive in Hprops. exists d'. split; [|done].
    unfold watch_and_clear, echo. unfold mbind, M_bind, bind, modify, try_except_WindowsError.
    simpl disk. simpl next_id. simpl console.
    rewrite <- (app_assoc c [waiting_message] [transfer_message]).
    change ([waiting_message] ++ [transfer_message])
      with [waiting_message; transfer_message].
    unfold OS.makedirs. by rewrite Hrun.
Qed.

Lemma remove_all_keeps d p names k v :
  d !! k = Some v → (∀ n, k ≠ p ++ [n]) → remove_all p names d !! k = Some v.
Proof.
  intros Hk Hne. rewrite remove_all_lookup_out; [done|]. intros n _. apply Hne.
Qed.

End Clearing.

(** C9. Where the temp path is free (with no plain file in the way above
    it) or is a folder of plain files, [watch_and_clear] leaves an empty
    directory at the path, and so does a second call right after it, which
    changes nothing more. The first call makes the directory when it is
    missing and otherwise removes its entries and keeps the directory;
    nothing outside the folder is removed. *)
Theorem watch_and_clear_twice self temp_path w :
  temp_path ≠ [] →
  well_formed (disk w) →
  (disk w !! temp_path = None ∧ no_file_on (disk w) (rev temp_path) = true) ∨
  (disk w !! temp_path = Some Dir ∧ plain_files_only (disk w) temp_path) →
  ∃ w1 w2,
    watch_and_clear self temp_path w = (Ok tt, w1) ∧
    empty_dir (disk w1) temp_path ∧
    (∀ k v, disk w !! k = Some v → (∀ n, k ≠ temp_path ++ [n]) →
            disk w1 !! k = Some v) ∧
    watch_and_clear self temp_path w1 = (Ok tt, w2) ∧
    empty_dir (disk w2) temp_path ∧
    disk w2 = disk w1.
Proof.
  intros Hne Hwf Hcase. destruct w as [d i c]. simpl in *.
  assert (Hagain : ∀ d1 c1,
    empty_dir d1 temp_path → is_Some (OS.node_at d1 (OS.parent temp_path)) →
    watch_and_clear self temp_path (World d1 i c1)
    = (Ok tt, World d1 i (c1 ++ [waiting_message; transfer_message]))).
  { intros d1 c1 [Hdir Hnone] Hpar.
    rewrite watch_and_clear_existing; [by rewrite Hnone|done|done|done|].
    unfold plain_files_only. by rewrite Hnone. }
  destruct Hcase as [[Hnew Hnf]|[Hdir Hfiles]].
  - destruct (watch_and_clear_new self d i c temp_path Hne Hnew Hnf)
      as (d1 & Hrun & Hdir1 & Hpar1 & Hkeep & Hoff).
    assert (Hempty : empty_dir d1 temp_path).
    { split; [done|]. apply elem_of_nil_inv. intros n Hn.
      apply elem_of_entries in Hn. rewrite Hoff in Hn.
      - rewrite (well_formed_no_orphan d temp_path n Hwf Hne Hnew) in Hn.
        by destruct Hn.
      - intros Hpre. apply prefix_length in Hpre.
        rewrite length_app in Hpre. simpl in Hpre. lia. }
    eexists _, _. split; [exact Hrun|]. split; [done|]. split.
    { intros k v Hk _. by apply Hkeep. }
    split; [apply Hagain; [done|by rewrite Hpar1]|]. done.
  - assert (Hpar : OS.node_at d (OS.parent temp_path) = Some Dir).
    { by apply (well_formed_parent d temp_path Dir). }
    set (d1 := remove_all temp_path (OS.entries temp_path d) d).
    assert (Hempty : empty_dir d1 temp_path).
    { split; [|apply entries_remove_all].
      apply remove_all_keeps; [done|]. intros n Heq. by apply (snoc_ne temp_path n). }
    assert (Hpar1 : is_Some (OS.node_at d1 (OS.parent temp_path))).
    { destruct (OS.parent temp_path) as [|a l] eqn:E; [by exists Dir|].
      exists Dir. unfold OS.node_at. apply remove_all_keeps; [exact Hpar|].
      intros n Heq. apply (f_equal length) in Heq. rewrite <- E in Heq.
      unfold OS.parent in Heq.
      rewrite length_app in Heq. simpl in Heq.
      destruct temp_path as [|b q _] using rev_ind; [done|].
      rewrite removelast_last, length_app in Heq. simpl in Heq. lia. }
    eexists _, _. split.
    { apply watch_and_clear_existing; [done|done|by rewrite Hpar|done]. }
    split; [done|]. split.
    { intros k v Hk Hout. by apply remove_all_keeps. }
    split; [by apply Hagain|]. done.
Qed.

Lemma watch_and_clear_twice_witness :
  temp ≠ [] ∧
  well_formed (disk left_over) ∧
  (disk left_over !! temp = Some Dir ∧ plain_files_only (disk left_over) temp) ∧
  well_formed (disk fresh) ∧
  (disk fresh !! temp = None ∧ no_file_on (disk fresh) (rev temp) = true) ∧
  (∃ w1 w2,
     watch_and_clear worker temp left_over = (Ok tt, w1) ∧ empty_dir (disk w1) temp ∧
     watch_and_clear worker temp w1 = (Ok tt, w2) ∧ empty_dir (disk w2) temp) ∧
  (∃ w1 w2,
     watch_and_clear worker temp fresh = (Ok tt, w1) ∧ empty_dir (disk w1) temp ∧
     watch_and_clear worker temp w1 = (Ok tt, w2) ∧ empty_dir (disk w2) temp).
Proof.
  assert (Hne : temp ≠ []) by discriminate.
  assert (Hwf1 : well_formed (disk left_over)).
  { unfold well_formed. apply map_Forall_to_list. vm_compute. repeat constructor. }
  assert (Hold : disk left_over !! temp = Some Dir ∧ plain_files_only (disk left_over) temp).
  { split; [reflexivity|].
    unfold plain_files_only. vm_compute. repeat constructor. }
  assert (Hwf2 : well_formed (disk fresh)).
  { unfold well_formed. apply map_Forall_to_list. vm_compute. repeat constructor. }
  assert (Hnew : disk fresh !! temp = None ∧ no_file_on (disk fresh) (rev temp) = true).
  { split; reflexivity. }
  split; [exact Hne|]. split; [exact Hwf1|]. split; [exact Hold|].
  split; [exact Hwf2|]. split; [exact Hnew|]. split.
  - destruct (watch_and_clear_twice worker temp left_over Hne Hwf1 (or_intror Hold))
      as (w1 & w2 & H1 & H2 & _ & H3 & H4 & _).
    exists w1, w2. exact (conj H1 (conj H2 (conj H3 H4))).
  - destruct (watch_and_clear_twice worker temp fresh Hne Hwf2 (or_introl Hnew))
      as (w1 & w2 & H1 & H2 & _ & H3 & H4 & _).
    exists w1, w2. exact (conj H1 (conj H2 (conj H3 H4))).
Defined.

(** C10. Where the temp folder holds a directory, the clearing step raises
    the error of [os.remove] on a directory; the temp folder is not left
    empty, the directory in it is still there. *)
Theorem watch_and_clear_subdirectory self temp_path n w :
  well_formed (disk w) →
  disk w !! temp_path = Some Dir →
  disk w !! (temp_path ++ [n]) = Some Dir →
  ∃ w',
    watch_and_clear self temp_path w = (Raise (WindowsError PermissionError), w') ∧
    disk w' !! temp_path = Some Dir ∧
    disk w' !! (temp_path ++ [n]) = Some Dir ∧
    ¬ empty_dir (disk w') temp_path.
Proof.
  intros Hwf Hdir Hsub. destruct w as [d i c]. simpl in *.
  destruct (watch_and_clear_blocked self d i c temp_path n Hdir) as (d' & Hrun & Hkeep).
  - rewrite (well_formed_parent d temp_path Dir Hwf Hdir). by exists Dir.
  - done.
  - eexists. split; [exact Hrun|]. simpl.
    split; [by apply Hkeep|]. split; [by apply Hkeep|].
    intros [_ Hnone].
    assert (Hin : n ∈ OS.entries temp_path d').
    { apply elem_of_entries. exists Dir. by apply Hkeep. }
    rewrite Hnone in Hin. by apply elem_of_nil in Hin.
Qed.

Lemma watch_and_clear_subdirectory_witness :
  well_formed (disk nested) ∧
  disk nested !! temp = Some Dir ∧
  disk nested !! (temp ++ ["old"]) = Some Dir ∧
  ∃ w',
    watch_and_clear worker temp nested = (Raise (WindowsError PermissionError), w') ∧
    ¬ empty_dir (disk w') temp.
Proof.
  assert (Hwf : well_formed (disk nested)).
  { unfold well_formed. apply map_Forall_to_list. vm_compute. repeat constructor. }
  split; [exact Hwf|]. split; [reflexivity|]. split; [reflexivity|].
  destruct (watch_and_clear_subdirectory worker temp "old" nested Hwf eq_refl eq_refl)
    as (w' & Hrun & _ & _ & Hnot).
  exists w'. exact (conj Hrun Hnot).
Defined.

(** ** Draining the drive: [tidy_up] *)

Section TidyUp.

Implicit Types (d : gmap (list string) node) (p k : list string) (n : string).

Lemma new_strs_eq names : ∀ d i c,
  new_strs names (World d i c)
  = (Ok (strs_from i names), World d (i + length names) c).
Proof.
  induction names as [|n names IH]; intros d i c.
  - simpl. run_m. by rewrite Nat.add_0_r.
  - simpl. unfold new_str at 1. run_m. rewrite IH.
    f_equal. f_equal. lia.
Qed.

Lemma strs_from_val names : ∀ i, ob_val <$> strs_from i names = names.
Proof. induction names as [|n names IH]; intros i; simpl; [done|]. by rewrite IH. Qed.

Lemma strs_from_id names : ∀ i f, f ∈ strs_from i names → (ob_id f < i + length names)%nat.
Proof.
  induction names as [|n names IH]; intros i f Hf; simpl in *.
  - by apply elem_of_nil in Hf.
  - apply elem_of_cons in Hf as [->|Hf]; simpl; [lia|].
    apply IH in Hf. lia.
Qed.

(** The filter of the comprehension keeps every object: the object it
    compares with is newer than all of them. *)
Lemma keep_others_all outname listing : ∀ d i c,
  (∀ f, f ∈ listing → (ob_id f < i)%nat) →
  keep_others outname listing (World d i c)
  = (Ok listing, World d (i + length listing) c).
Proof.
  induction listing as [|f listing IH]; intros d i c Hold.
  - simpl. run_m. by rewrite Nat.add_0_r.
  - simpl. unfold new_str at 1. run_m. rewrite IH.
    + unfold is_not. simpl.
      assert (ob_id f < i)%nat as Hf by (apply Hold; by left).
      replace (ob_id f =? i)%nat with false by (symmetry; apply Nat.eqb_neq; lia).
      simpl. f_equal. f_equal. lia.
    + intros g Hg. assert (ob_id g < i)%nat by (apply Hold; by right). lia.
Qed.

Lemma for_each_fmap {S A B} (g : A → B) (l : list A) (body : B → M S unit) (s : S) :
  for_each (g <$> l) body s = for_each l (λ x, body (g x)) s.
Proof.
  revert s. induction l as [|x l IH]; intros s; [done|].
  rewrite fmap_cons, !for_each_cons. destruct (body (g x) s) as [[[]|e] s']; [apply IH|done].
Qed.

Lemma rmtree_dir d i c p :
  p ≠ [] → d !! p = Some Dir →
  OS.rmtree p (World d i c)
  = (Ok tt, World (filter (λ kv, ¬ p `prefix_of` kv.1) d) i c).
Proof.
  intros Hne Hp. unfold OS.rmtree, set_disk. simpl disk.
  replace (OS.node_at d p) with (Some Dir) by (by destruct p). done.
Qed.

Lemma listdir_dir d i c p :
  p ≠ [] → d !! p = Some Dir →
  OS.listdir p (World d i c) = (Ok (OS.entries p d), World d i c).
Proof.
  intros Hne Hp. unfold OS.listdir. simpl disk.
  replace (OS.node_at d p) with (Some Dir) by (by destruct p). done.
Qed.

(** A temp folder off the drive is not above anything on the drive. *)
Lemma off_drive dr temp_dir k :
  temp_dir ≠ [] →
  ¬ drive_root dr `prefix_of` temp_dir →
  drive_root dr `prefix_of` k →
  ¬ temp_dir `prefix_of` k.
Proof.
  intros Hne Hoff [k1 ->] [k2 Hk]. unfold drive_root in *.
  destruct temp_dir as [|t temp_dir]; [done|].
  simpl in Hk. injection Hk as <- _.
  apply Hoff. by exists temp_dir.
Qed.

End TidyUp.

(** C7. Where the temp folder is off the drive and the root of the drive
    holds plain files only, [tidy_up] removes every entry of the root: the
    filter with [is not] keeps all of them, so a file named
    [outname + ".mp4"], and one named [outname], are removed with the
    rest. *)
Theorem tidy_up_removes_every_file self temp_dir w :
  temp_dir ≠ [] →
  ¬ drive_root (drive self) `prefix_of` temp_dir →
  disk w !! temp_dir = Some Dir →
  disk w !! drive_root (drive self) = Some Dir →
  plain_files_only (disk w) (drive_root (drive self)) →
  ∃ w',
    tidy_up self temp_dir w = (Ok tt, w') ∧
    OS.entries (drive_root (drive self)) (disk w') = [] ∧
    disk w' !! (drive_root (drive self) ++ [outname self +:+ ".mp4"]) = None ∧
    disk w' !! (drive_root (drive self) ++ [outname self]) = None.
Proof.
  intros Hne Hoff Htemp Hroot Hfiles. destruct w as [d i c]. simpl in *.
  set (root := drive_root (drive self)) in *.
  set (d1 := filter (λ kv : list string * node, ¬ temp_dir `prefix_of` kv.1) d).
  assert (Hroot1 : d1 !! root = Some Dir).
  { apply map_lookup_filter_Some. split; [done|]. simpl.
    by apply (off_drive (drive self)). }
  assert (Hfiles1 : ∀ n, n ∈ OS.entries root d1 → d1 !! (root ++ [n]) = Some File).
  { intros n [v Hv]%elem_of_entries. rewrite Hv.
    apply map_lookup_filter_Some in Hv as [Hv _].
    unfold plain_files_only in Hfiles. rewrite Forall_forall in Hfiles.
    rewrite Hfiles in Hv; [done|]. apply elem_of_entries. by exists v. }
  set (names := OS.entries root d1) in *.
  set (d2 := remove_all root names d1).
  assert (Hrun : tidy_up self temp_dir (World d i c)
    = (Ok tt, World d2 (i + length names + length (strs_from i names))
                (c ++ ["🗑️ Cleaning up..."] ++ ["Finished"]))).
  { unfold tidy_up, echo. unfold mbind, M_bind, bind, modify.
    simpl disk. simpl next_id. simpl console.
    rewrite rmtree_dir by done. fold d1.
    rewrite listdir_dir by done. fold root names.
    rewrite new_strs_eq.
    rewrite keep_others_all by (intros f Hf; by apply strs_from_id).
    rewrite <- (for_each_fmap ob_val (strs_from i names)
                  (λ n, OS.remove (root ++ [n]))).
    rewrite strs_from_val.
    rewrite remove_loop_files; [|apply NoDup_entries|done].
    simpl. by rewrite <- app_assoc. }
  assert (Hempty : OS.entries root d2 = []) by apply entries_remove_all.
  assert (Hnone : ∀ n, d2 !! (root ++ [n]) = None).
  { intros n. destruct (d2 !! (root ++ [n])) as [v|] eqn:Hv; [|done].
    assert (n ∈ OS.entries root d2) as Hin by (apply elem_of_entries; by exists v).
    rewrite Hempty in Hin. by apply elem_of_nil in Hin. }
  eexists. split; [exact Hrun|]. simpl. split; [done|]. split; apply Hnone.
Qed.

Lemma tidy_up_removes_every_file_witness :
  temp ≠ [] ∧
  ¬ drive_root (drive worker) `prefix_of` temp ∧
  disk after_run !! temp = Some Dir ∧
  disk after_run !! drive_root (drive worker) = Some Dir ∧
  plain_files_only (disk after_run) (drive_root (drive worker)) ∧
  disk after_run !! ["X:"; "test_01.mp4.mp4"] = Some File ∧
  ∃ w',
    tidy_up worker temp after_run = (Ok tt, w') ∧
    disk w' !! ["X:"; "test_01.mp4.mp4"] = None.
Proof.
  assert (Hne : temp ≠ []) by discriminate.
  assert (Hoff : ¬ drive_root (drive worker) `prefix_of` temp).
  { intros [k Hk]. discriminate Hk. }
  assert (Hfiles : plain_files_only (disk after_run) (drive_root (drive worker))).
  { unfold plain_files_only. vm_compute. repeat constructor. }
  split; [exact Hne|]. split; [exact Hoff|]. split; [reflexivity|].
  split; [reflexivity|]. split; [exact Hfiles|]. split; [reflexivity|].
  destruct (tidy_up_removes_every_file worker temp after_run Hne Hoff eq_refl eq_refl Hfiles)
    as (w' & Hrun & _ & Hgone & _).
  exists w'. exact (conj Hrun Hgone).
Defined.

Example tidy_up_after_run :
  (tidy_up worker temp after_run).1 = Ok tt ∧
  OS.entries ["X:"] (disk (tidy_up worker temp after_run).2) = [].
Proof. split; vm_compute; reflexivity. Qed.

(** ** Staging without a raw capture *)

(** Without a file ending in [.all] the loop only copies the csv files and
    never binds [raw]. *)
Lemma stage_files_no_raw temp_folder drv file_list : ∀ raw t,
  Forall (λ f, endswith f ".all" = false) file_list →
  stage_files temp_folder drv file_list raw t
  = (Ok raw,
     t ++ ((λ f, Copy (drv +:+ ":\\" +:+ f) temp_folder)
             <$> filter (λ f, endswith f ".csv" = true) file_list)).
Proof.
  induction file_list as [|f file_list IH]; intros raw t Hno.
  - simpl. run_m. by rewrite app_nil_r.
  - apply Forall_cons in Hno as [Hf Hno].
    simpl stage_files. unfold stage_file, do_call. run_m.
    rewrite Hf. simpl.
    destruct (endswith f ".csv") eqn:Hcsv.
    + rewrite filter_cons_True by exact Hcsv. rewrite IH by exact Hno.
      by rewrite fmap_cons, <- app_assoc.
    + rewrite filter_cons_False by (rewrite Hcsv; discriminate).
      by rewrite IH by exact Hno.
Qed.

(** C6. Where the drive holds no file ending in [.all], nothing is decoded:
    the only calls are the copies of the csv files. The function then does
    not complete: [raw.close()] finds [raw] unbound and raises
    [UnboundLocalError]. *)
Theorem move_and_convert_without_raw_raises temp_folder drv file_list t :
  Forall (λ f, endswith f ".all" = false) file_list →
  move_and_convert_to_tiff temp_folder drv file_list t
  = (Raise (UnboundLocalError "raw"),
     t ++ ((λ f, Copy (drv +:+ ":\\" +:+ f) temp_folder)
             <$> filter (λ f, endswith f ".csv" = true) file_list)).
Proof.
  intros Hno. unfold move_and_convert_to_tiff. unfold mbind, M_bind, bind.
  by rewrite stage_files_no_raw.
Qed.

Lemma move_and_convert_without_raw_raises_witness :
  Forall (λ f, endswith f ".all" = false) ["tstamps.csv"] ∧
  move_and_convert_to_tiff "C:\cwd\temp" "X" ["tstamps.csv"] []
  = (Raise (UnboundLocalError "raw"), [Copy "X:\\tstamps.csv" "C:\cwd\temp"]).
Proof.
  assert (Hno : Forall (λ f, endswith f ".all" = false) ["tstamps.csv"]).
  { repeat constructor. }
  split; [exact Hno|].
  exact (move_and_convert_without_raw_raises "C:\cwd\temp" "X" ["tstamps.csv"] [] Hno).
Defined.

Example move_and_convert_one_raw :
  move_and_convert_to_tiff "C:\cwd\temp" "X" ["tstamps.csv"; "out.000001.raw.all"] []
  = (Ok tt,
     [Copy "X:\\tstamps.csv" "C:\cwd\temp";
      Copy "X:\\out.000001.raw.all" "C:\cwd\temp";
      Imread "C:\cwd\temp\\out.000001.raw.all";
      Postprocess "C:\cwd\temp\\out.000001.raw.all";
      Imsave "C:\cwd\temp\\out.000001.tiff" "C:\cwd\temp\\out.000001.raw.all";
      Close "C:\cwd\temp\\out.000001.raw.all"]).
Proof. vm_compute. reflexivity. Qed.

(** * More properties of the code *)

(** ** Rows that do not read *)

Section BadRows.

Variables (temp_folder : string) (slowdown : Q).








End BadRows.






(** ** The statistics *)











Example sample_statistics :
  stats_lines 4500 3 30
  = ["🎞"; " Average dt:   0.0015 s"; " Average fps:  666.7"; " Output fps:   22.2";
     " Frames:       3"; " Video length: 0.1 s"].
Proof. vm_compute. reflexivity. Qed.




(** ** More on the encoder call and on the worker *)






Lemma test_drive_run w :
  test_drive w
  = (if reachable w "W" then Ok "W"
     else if reachable w "Y" then Ok "Y"
     else if reachable w "X" then Ok "X"
     else Raise (WindowsError (Message "No shared drive found!")), w).
Proof.
  unfold test_drive, OS.path_exists, reachable. run_m.
  by repeat (case_bool_decide; simpl).
Qed.

(** X8. A worker that [__init__] returns keeps the three parameters as
    given and has a drive among W, Y, X whose root is there; making it
    changes nothing in the world. Where no root is there, [__init__]
    raises the error of [test_drive] and no worker is made. *)
Theorem init_worker sx name rate w :
  (∀ self w',
     init sx name rate w = (Ok self, w') →
     w' = w ∧ slowx self = sx ∧ outname self = name ∧ fps self = rate ∧
     drive self ∈ candidates ∧ reachable w (drive self) = true) ∧
  ((∀ dr, dr ∈ candidates → reachable w dr = false) →
   init sx name rate w
   = (Raise (WindowsError (Message "No shared drive found!")), w)).
Proof.
  unfold init. unfold mbind, M_bind, bind, mret, M_ret, ret.
  rewrite test_drive_run. unfold candidates. split.
  - intros self w' Hinit.
    destruct (reachable w "W") eqn:HW; [|destruct (reachable w "Y") eqn:HY;
      [|destruct (reachable w "X") eqn:HX]];
      simplify_eq; simpl; repeat split; try done; set_solver.
  - intros Hnone. rewrite !Hnone by set_solver. done.
Qed.

Lemma init_worker_witness :
  init 30 "test_01.mp4" 440 only_x = (Ok worker, only_x) ∧
  (∀ dr, dr ∈ candidates → reachable no_drive dr = false) ∧
  init 30 "test_01.mp4" 440 no_drive
  = (Raise (WindowsError (Message "No shared drive found!")), no_drive).
Proof.
  assert (Hnone : ∀ dr, dr ∈ candidates → reachable no_drive dr = false).
  { intros dr Hdr. unfold candidates in Hdr.
    apply elem_of_cons in Hdr as [->|Hdr]; [reflexivity|].
    apply elem_of_cons in Hdr as [->|Hdr]; [reflexivity|].
    apply elem_of_cons in Hdr as [->|Hdr]; [reflexivity|].
    by apply elem_of_nil in Hdr. }
  split; [reflexivity|]. split; [exact Hnone|].
  exact (proj2 (init_worker 30 "test_01.mp4" 440 no_drive) Hnone).
Defined.

(** ** A plain file at the temp path *)

(** X9. Where a plain file is at the temp path, [watch_and_clear] raises
    [NotADirectoryError]: creating the folder fails, and so does the
    listing in the handler. The disk is as it was. *)
Theorem watch_and_clear_on_file self temp_path w :
  temp_path ≠ [] →
  well_formed (disk w) →
  disk w !! temp_path = Some File →
  watch_and_clear self temp_path w
  = (Raise (WindowsError NotADirectoryError),
     World (disk w) (next_id w) (console w ++ [waiting_message; transfer_message])).
Proof.
  intros Hne Hwf Hfile. destruct w as [d i c]. simpl in *.
  unfold watch_and_clear, echo.
  unfold mbind, M_bind, bind, modify, try_except_WindowsError.
  simpl disk. simpl next_id. simpl console.
  rewrite <- (app_assoc c [waiting_message] [transfer_message]).
  change ([waiting_message] ++ [transfer_message])
    with [waiting_message; transfer_message].
  pose proof (well_formed_parent d temp_path File Hwf Hfile) as Hpar.
  destruct temp_path as [|a q]; [done|].
  rewrite makedirs_exists; [|by exists File|by rewrite Hpar].
  unfold OS.listdir. simpl disk. unfold OS.node_at. by rewrite Hfile.
Qed.

Lemma watch_and_clear_on_file_witness :
  temp ≠ [] ∧
  well_formed (disk file_at_temp) ∧
  disk file_at_temp !! temp = Some File ∧
  (watch_and_clear worker temp file_at_temp).1 = Raise (WindowsError NotADirectoryError).
Proof.
  assert (Hwf : well_formed (disk file_at_temp)).
  { unfold well_formed. apply map_Forall_to_list. vm_compute. repeat constructor. }
  assert (Hne : temp ≠ []) by discriminate.
  split; [exact Hne|]. split; [exact Hwf|]. split; [reflexivity|].
  exact (f_equal fst (watch_and_clear_on_file worker temp file_at_temp Hne Hwf eq_refl)).
Defined.

(** ** Staging with raw captures *)

Section Staging.

Variables (temp_folder drv : string).

Lemma stage_file_calls filename raw t :
  stage_file temp_folder drv filename raw t
  = (Ok (if endswith filename ".all" then Some (temp_folder +:+ "\\" +:+ filename)
         else raw),
     t ++ stage_calls temp_folder drv filename).
Proof.
  unfold stage_file, stage_calls, do_call. run_m.
  destruct (endswith filename ".all"); simpl.
  - by rewrite <- !app_assoc.
  - destruct (endswith filename ".csv"); simpl; [done|by rewrite app_nil_r].
Qed.

Lemma last_raw_cons f file_list :
  last_raw (f :: file_list)
  = match last_raw file_list with
    | Some g => Some g
    | None => if endswith f ".all" then Some f else None
    end.
Proof.
  unfold last_raw. destruct (endswith f ".all") eqn:Hf.
  - rewrite filter_cons_True by exact Hf. apply last_cons.
  - rewrite filter_cons_False by (rewrite Hf; discriminate).
    by destruct (last _).
Qed.

Lemma stage_files_calls file_list : ∀ raw t,
  stage_files temp_folder drv file_list raw t
  = (Ok (match last_raw file_list with
         | Some f => Some (temp_folder +:+ "\\" +:+ f)
         | None => raw
         end),
     t ++ concat (stage_calls temp_folder drv <$> file_list)).
Proof.
  induction file_list as [|f file_list IH]; intros raw t.
  - simpl. run_m. by rewrite app_nil_r.
  - simpl stage_files. unfold mbind, M_bind, bind.
    rewrite stage_file_calls, IH, last_raw_cons, fmap_cons, concat_cons, app_assoc.
    f_equal. f_equal. destruct (last_raw file_list); [done|].
    by destruct (endswith f ".all").
Qed.

Lemma stage_calls_no_close filename :
  Forall (λ c, is_close c = false) (stage_calls temp_folder drv filename).
Proof.
  unfold stage_calls. destruct (endswith filename ".all"); [by repeat constructor|].
  destruct (endswith filename ".csv"); by repeat constructor.
Qed.

(** [move_and_convert_to_tiff] by the last raw capture of the listing. *)
Lemma move_and_convert_run file_list t :
  move_and_convert_to_tiff temp_folder drv file_list t
  = match last_raw file_list with
    | Some f =>
        (Ok tt,
         t ++ concat (stage_calls temp_folder drv <$> file_list)
           ++ [Close (temp_folder +:+ "\\" +:+ f)])
    | None =>
        (Raise (UnboundLocalError "raw"),
         t ++ concat (stage_calls temp_folder drv <$> file_list))
    end.
Proof.
  unfold move_and_convert_to_tiff. unfold mbind, M_bind, bind.
  rewrite stage_files_calls. destruct (last_raw file_list); [|done].
  unfold do_call, modify. by rewrite <- app_assoc.
Qed.


Lemma last_raw_None file_list :
  (∀ n, n ∈ file_list → endswith n ".all" = false) → last_raw file_list = None.
Proof.
  intros Hno. unfold last_raw.
  destruct (last _) eqn:E; [|done]. apply last_Some_elem_of in E.
  apply list_elem_of_filter in E as [Hall Hin]. by rewrite (Hno _ Hin) in Hall.
Qed.

Lemma stage_calls_copies file_list :
  (∀ n, n ∈ file_list → endswith n ".all" = false) →
  Forall (λ c, is_copy c = true) (concat (stage_calls temp_folder drv <$> file_list)).
Proof.
  intros Hno. apply Forall_concat, Forall_fmap, Forall_forall. intros n Hn.
  unfold compose, stage_calls. cbv beta zeta. rewrite (Hno n Hn).
  destruct (endswith n ".csv"); by repeat constructor.
Qed.

End Staging.

(** X10. Where the listing has a raw capture, [move_and_convert_to_tiff]
    returns. In the order of the listing, every [.all] file is copied, read,
    developed and saved as a tiff, every [.csv] file is copied, and any other
    file is left alone. The handles of [rawpy] are not closed along the way:
    the one call of [close] comes at the end, on the handle of the last raw
    capture. *)
Theorem move_and_convert_closes_last temp_folder drv file_list f t :
  last_raw file_list = Some f →
  move_and_convert_to_tiff temp_folder drv file_list t
  = (Ok tt,
     t ++ concat (stage_calls temp_folder drv <$> file_list)
       ++ [Close (temp_folder +:+ "\\" +:+ f)]) ∧
  Forall (λ c, is_close c = false) (concat (stage_calls temp_folder drv <$> file_list)) ∧
  endswith f ".all" = true ∧ f ∈ file_list.
Proof.
  intros Hlast. split; [|split].
  - by rewrite move_and_convert_run, Hlast.
  - apply Forall_concat, Forall_fmap, Forall_forall. intros g _.
    apply stage_calls_no_close.
  - unfold last_raw in Hlast. apply last_Some_elem_of in Hlast.
    by apply list_elem_of_filter in Hlast.
Qed.

Lemma move_and_convert_closes_last_witness :
  last_raw ["out.000001.raw.all"; "tstamps.csv"; "out.000002.raw.all"; "notes.txt"]
  = Some "out.000002.raw.all" ∧
  move_and_convert_to_tiff "C:\cwd\temp" "X"
    ["out.000001.raw.all"; "tstamps.csv"; "out.000002.raw.all"; "notes.txt"] []
  = (Ok tt,
     [Copy "X:\\out.000001.raw.all" "C:\cwd\temp";
      Imread "C:\cwd\temp\\out.000001.raw.all";
      Postprocess "C:\cwd\temp\\out.000001.raw.all";
      Imsave "C:\cwd\temp\\out.000001.tiff" "C:\cwd\temp\\out.000001.raw.all";
      Copy "X:\\tstamps.csv" "C:\cwd\temp";
      Copy "X:\\out.000002.raw.all" "C:\cwd\temp";
      Imread "C:\cwd\temp\\out.000002.raw.all";
      Postprocess "C:\cwd\temp\\out.000002.raw.all";
      Imsave "C:\cwd\temp\\out.000002.tiff" "C:\cwd\temp\\out.000002.raw.all";
      Close "C:\cwd\temp\\out.000002.raw.all"]).
Proof.
  split; [reflexivity|].
  exact (proj1 (move_and_convert_closes_last "C:\cwd\temp" "X"
                  ["out.000001.raw.all"; "tstamps.csv"; "out.000002.raw.all"; "notes.txt"]
                  "out.000002.raw.all" [] eq_refl)).
Defined.

(** ** The name of the tiff *)

Lemma substring_app_l (a b : string) : ∀ n,
  (n ≤ String.length a)%nat → substring 0 n (a +:+ b) = substring 0 n a.
Proof.
  induction a as [|c a IH]; intros n Hn.
  - simpl in Hn. assert (n = 0%nat) as -> by lia. by destruct b.
  - destruct n as [|n]; [done|]. rewrite string_app_cons. simpl.
    rewrite IH; [done|simpl in Hn; lia].
Qed.

Lemma substring_whole (a : string) : substring 0 (String.length a) a = a.
Proof. induction a as [|c a IH]; [done|]. simpl. by rewrite IH. Qed.

(** Cutting more than a suffix cuts the rest from what is before it. *)
Lemma drop_last_app (a e : string) j :
  drop_last (String.length e + j) (a +:+ e) = drop_last j a.
Proof.
  unfold drop_last. rewrite string_app_length.
  replace (String.length a + String.length e - (String.length e + j))%nat
    with (String.length a - j)%nat by lia.
  apply substring_app_l. lia.
Qed.

Lemma drop_last_suffix (a e : string) n :
  String.length e = n → drop_last n (a +:+ e) = a.
Proof.
  intros <-. rewrite <- (Nat.add_0_r (String.length e)), drop_last_app.
  unfold drop_last. rewrite Nat.sub_0_r. apply substring_whole.
Qed.

(** X11. The tiff of a raw capture is named by cutting eight characters
    off the path of the copy. For a name of a base and an ending of eight
    characters the tiff is the base with [.tiff], in the temp folder. For a
    name of six characters or fewer the cut runs through the separator into
    the text of the temp folder, and the tiff is named after what is left
    of that text: it is not in the temp folder. *)
Theorem stage_tiff_path temp_folder drv :
  (∀ base ext,
     String.length ext = 8%nat →
     endswith (base +:+ ext) ".all" = true →
     stage_calls temp_folder drv (base +:+ ext)
     = [Copy (drv +:+ ":\\" +:+ base +:+ ext) temp_folder;
        Imread (temp_folder +:+ "\\" +:+ base +:+ ext);
        Postprocess (temp_folder +:+ "\\" +:+ base +:+ ext);
        Imsave (temp_folder +:+ "\\" +:+ base +:+ ".tiff")
               (temp_folder +:+ "\\" +:+ base +:+ ext)]) ∧
  (∀ filename,
     (String.length filename ≤ 6)%nat →
     endswith filename ".all" = true →
     stage_calls temp_folder drv filename
     = [Copy (drv +:+ ":\\" +:+ filename) temp_folder;
        Imread (temp_folder +:+ "\\" +:+ filename);
        Postprocess (temp_folder +:+ "\\" +:+ filename);
        Imsave (drop_last (6 - String.length filename) temp_folder +:+ ".tiff")
               (temp_folder +:+ "\\" +:+ filename)]).
Proof.
  split.
  - intros base ext Hlen Hall. unfold stage_calls. rewrite Hall.
    do 4 f_equal.
    replace (temp_folder +:+ "\\" +:+ base +:+ ext)
      with ((temp_folder +:+ "\\" +:+ base) +:+ ext)
      by (by rewrite !string_app_assoc).
    rewrite (drop_last_suffix _ ext 8 Hlen). by rewrite !string_app_assoc.
  - intros filename Hlen Hall. unfold stage_calls. rewrite Hall.
    do 4 f_equal.
    replace 8%nat
      with (String.length ("\\" +:+ filename) + (6 - String.length filename))%nat
      by (rewrite string_app_length; simpl; lia).
    by rewrite drop_last_app.
Qed.

Lemma stage_tiff_path_witness :
  String.length ".raw.all" = 8%nat ∧
  endswith ("out.000001" +:+ ".raw.all") ".all" = true ∧
  (String.length "a.all" ≤ 6)%nat ∧
  endswith "a.all" ".all" = true ∧
  Imsave "C:\cwd\temp\\out.000001.tiff" "C:\cwd\temp\\out.000001.raw.all"
    ∈ stage_calls "C:\cwd\temp" "X" ("out.000001" +:+ ".raw.all") ∧
  Imsave "C:\cwd\tem.tiff" "C:\cwd\temp\\a.all" ∈ stage_calls "C:\cwd\temp" "X" "a.all".
Proof.
  assert (Hshort : (String.length "a.all" ≤ 6)%nat) by (simpl; lia).
  split; [reflexivity|]. split; [reflexivity|]. split; [exact Hshort|].
  split; [reflexivity|]. split.
  - rewrite (proj1 (stage_tiff_path "C:\cwd\temp" "X") "out.000001" ".raw.all"
               eq_refl eq_refl).
    do 3 apply list_elem_of_further. apply list_elem_of_here.
  - rewrite (proj2 (stage_tiff_path "C:\cwd\temp" "X") "a.all" Hshort eq_refl).
    do 3 apply list_elem_of_further. apply list_elem_of_here.
Defined.

(** ** More on [tidy_up] *)

Section TidyUpMore.

Variable self : ProcessingWorker.

Implicit Types (d : gmap (list string) node) (p k : list string) (n : string).

Lemma without_tree_lookup_in p d k :
  p `prefix_of` k → without_tree p d !! k = None.
Proof.
  intros Hpre. unfold without_tree. apply map_lookup_filter_None. right.
  intros v _ Hno. by apply Hno.
Qed.

Lemma without_tree_lookup_out p d k :
  ¬ p `prefix_of` k → without_tree p d !! k = d !! k.
Proof.
  intros Hpre. unfold without_tree.
  destruct (d !! k) as [v|] eqn:Hk.
  - apply map_lookup_filter_Some. by split.
  - apply map_lookup_filter_None. by left.
Qed.

Lemma remove_shrinks p w r w' :
  OS.remove p w = (r, w') →
  (∀ k v, disk w' !! k = Some v → disk w !! k = Some v) ∧
  next_id w' = next_id w ∧ console w' = console w.
Proof.
  unfold OS.remove. destruct (OS.node_at (disk w) p) as [[|]|]; intros [= <- <-];
    try done.
  simpl. split; [|done]. intros k v Hk. by apply lookup_delete_Some in Hk as [_ Hk].
Qed.

(** The loop of removals only takes entries away. *)
Lemma remove_loop_shrinks p names : ∀ w r w',
  for_each names (λ n, OS.remove (p ++ [n])) w = (r, w') →
  (∀ k v, disk w' !! k = Some v → disk w !! k = Some v) ∧
  next_id w' = next_id w ∧ console w' = console w.
Proof.
  induction names as [|m names IH]; intros w r w' Hrun.
  - by injection Hrun as <- <-.
  - rewrite for_each_cons in Hrun.
    destruct (OS.remove (p ++ [m]) w) as [[[]|e] w1] eqn:Hrm.
    + apply remove_shrinks in Hrm as (H1 & H2 & H3).
      apply IH in Hrun as (H1' & H2' & H3').
      split; [|split; congruence]. intros k v Hk. by apply H1, H1'.
    + injection Hrun as <- <-. by apply remove_shrinks in Hrm.
Qed.

(** [tidy_up] up to its loop: the temp folder is removed, the root of the
    drive is listed, and every entry goes to the loop. *)
Lemma tidy_up_steps d i c temp_dir :
  temp_dir ≠ [] →
  d !! temp_dir = Some Dir →
  without_tree temp_dir d !! drive_root (drive self) = Some Dir →
  let root := drive_root (drive self) in
  let d1 := without_tree temp_dir d in
  let names := OS.entries root d1 in
  tidy_up self temp_dir (World d i c)
  = match for_each names (λ n, OS.remove (root ++ [n]))
            (World d1 (i + length names + length names) (c ++ [cleaning_message])) with
    | (Ok _, w') => (Ok tt, World (disk w') (next_id w') (console w' ++ ["Finished"]))
    | (Raise e, w') => (Raise e, w')
    end.
Proof.
  intros Hne Htemp Hroot root d1 names.
  unfold tidy_up, echo. unfold mbind, M_bind, bind, modify.
  simpl disk. simpl next_id. simpl console.
  rewrite rmtree_dir by done. fold (without_tree temp_dir d). fold d1.
  rewrite listdir_dir by done. fold root names.
  rewrite new_strs_eq.
  rewrite keep_others_all by (intros f Hf; by apply strs_from_id).
  rewrite <- (for_each_fmap ob_val (strs_from i names) (λ n, OS.remove (root ++ [n]))).
  rewrite strs_from_val.
  replace (length (strs_from i names)) with (length names)
    by (by rewrite <- (strs_from_val names i) at 1; rewrite length_fmap).
  by destruct (for_each names _ _) as [[[]|e] [d' i' c']].
Qed.

End TidyUpMore.

(** X12. Where the temp folder is missing, or a plain file is in its
    place, [tidy_up] raises on removing it ([FileNotFoundError],
    [NotADirectoryError]) and stops there: the disk is as it was, and the
    drive keeps its files. *)
Theorem tidy_up_without_temp self temp_dir w :
  temp_dir ≠ [] →
  (disk w !! temp_dir = None →
   tidy_up self temp_dir w
   = (Raise (WindowsError FileNotFoundError),
      World (disk w) (next_id w) (console w ++ [cleaning_message]))) ∧
  (disk w !! temp_dir = Some File →
   tidy_up self temp_dir w
   = (Raise (WindowsError NotADirectoryError),
      World (disk w) (next_id w) (console w ++ [cleaning_message]))).
Proof.
  intros Hne. destruct w as [d i c]. simpl.
  split; intros Htemp; unfold tidy_up, echo; unfold mbind, M_bind, bind, modify;
    unfold OS.rmtree; simpl disk; simpl next_id; simpl console;
    (replace (OS.node_at d temp_dir) with (d !! temp_dir) by (by destruct temp_dir));
    by rewrite Htemp.
Qed.

Lemma tidy_up_without_temp_witness :
  temp ≠ [] ∧
  disk fresh !! temp = None ∧
  tidy_up worker temp fresh
  = (Raise (WindowsError FileNotFoundError),
     World (disk fresh) 0 [cleaning_message]).
Proof.
  assert (Hne : temp ≠ []) by discriminate.
  split; [exact Hne|]. split; [reflexivity|].
  exact (proj1 (tidy_up_without_temp worker temp fresh Hne) eq_refl).
Defined.




(** X14. Where the root of the drive holds a directory, [tidy_up] raises
    the error of [os.remove] on it. By then the temp folder is gone; the
    directory on the drive stays, and [Finished] is not printed. *)
Theorem tidy_up_directory_on_drive self temp_dir n w :
  temp_dir ≠ [] →
  ¬ drive_root (drive self) `prefix_of` temp_dir →
  disk w !! temp_dir = Some Dir →
  disk w !! drive_root (drive self) = Some Dir →
  disk w !! (drive_root (drive self) ++ [n]) = Some Dir →
  ∃ w',
    tidy_up self temp_dir w = (Raise (WindowsError PermissionError), w') ∧
    (∀ k, temp_dir `prefix_of` k → disk w' !! k = None) ∧
    disk w' !! (drive_root (drive self) ++ [n]) = Some Dir ∧
    console w' = console w ++ [cleaning_message].
Proof.
  intros Hne Hoff Htemp Hroot Hsub. destruct w as [d i c]. simpl in *.
  set (root := drive_root (drive self)) in *.
  set (d1 := without_tree temp_dir d).
  assert (Hkeep1 : ∀ k, root `prefix_of` k → d1 !! k = d !! k).
  { intros k Hk. apply without_tree_lookup_out. by apply (off_drive (drive self)). }
  assert (Hroot1 : d1 !! root = Some Dir) by (by rewrite Hkeep1).
  rewrite (tidy_up_steps self d i c temp_dir Hne Htemp Hroot1).
  fold root d1.
  destruct (remove_loop_dir root (OS.entries root d1) d1
              (i + length (OS.entries root d1) + length (OS.entries root d1))
              (c ++ [cleaning_message])) as (d' & Hrun & Hdirs).
  - apply NoDup_entries.
  - intros m Hm. by apply elem_of_entries.
  - exists n. assert (d1 !! (root ++ [n]) = Some Dir) as Hn.
    { rewrite Hkeep1; [done|by exists [n]]. }
    split; [|done]. apply elem_of_entries. by exists Dir.
  - rewrite Hrun. eexists. split; [done|]. simpl. split; [|split; [|done]].
    + intros k Hk. destruct (d' !! k) as [v|] eqn:Hv; [|done].
      apply remove_loop_shrinks in Hrun as [Hless _]. apply Hless in Hv. simpl in Hv.
      unfold d1 in Hv. by rewrite without_tree_lookup_in in Hv.
    + apply Hdirs. rewrite Hkeep1; [done|by exists [n]].
Qed.

Lemma tidy_up_directory_on_drive_witness :
  temp ≠ [] ∧
  ¬ drive_root (drive worker) `prefix_of` temp ∧
  disk folder_on_drive !! temp = Some Dir ∧
  disk folder_on_drive !! drive_root (drive worker) = Some Dir ∧
  disk folder_on_drive !! (drive_root (drive worker) ++ ["old"]) = Some Dir ∧
  ∃ w',
    tidy_up worker temp folder_on_drive = (Raise (WindowsError PermissionError), w') ∧
    disk w' !! temp = None.
Proof.
  assert (Hne : temp ≠ []) by discriminate.
  assert (Hoff : ¬ drive_root (drive worker) `prefix_of` temp).
  { intros [k Hk]. discriminate Hk. }
  split; [exact Hne|]. split; [exact Hoff|]. split; [reflexivity|].
  split; [reflexivity|]. split; [reflexivity|].
  destruct (tidy_up_directory_on_drive worker temp "old" folder_on_drive Hne Hoff
              eq_refl eq_refl eq_refl) as (w' & Hrun & Hgone & _).
  exists w'. split; [exact Hrun|]. apply Hgone. by exists [].
Defined.

(** ** Path texts *)

Lemma components_nonempty (a : string) : components a ≠ [].
Proof.
  destruct a as [|x a]; [done|]. simpl.
  destruct (is_sep x); [done|]. by destruct (components a).
Qed.

Lemma components_sep (a b : string) c :
  is_sep c = true →
  components (a +:+ String c b) = components a ++ components b.
Proof.
  intros Hc. induction a as [|x a IH].
  - rewrite string_app_nil. simpl. by rewrite Hc.
  - rewrite string_app_cons. simpl. rewrite IH.
    destruct (is_sep x); [done|].
    pose proof (components_nonempty a). by destruct (components a).
Qed.

(** A text, a separator and a name: the path of the text, then the name. *)
Lemma win_path_join (a : string) c n :
  is_sep c = true → components n = [n] → n ≠ "" →
  win_path (a +:+ String c n) = win_path a ++ [n].
Proof.
  intros Hc Hn Hne. unfold win_path.
  rewrite (components_sep a n c Hc), filter_app, Hn.
  by rewrite filter_cons_True by done.
Qed.

(** ** The whole session *)

Section Run.

Variables (self : ProcessingWorker) (cwd : string) (rows : list (list string)).

Let tempdir : string := cwd +:+ "\temp".
Let temp_path : list string := win_path tempdir.
Let root : list string := drive_root (drive self).

Lemma temp_path_join : temp_path = win_path cwd ++ ["temp"].
Proof. unfold temp_path, tempdir. by apply win_path_join. Qed.

Lemma temp_path_nonempty : temp_path ≠ [].
Proof. rewrite temp_path_join. by destruct (win_path cwd). Qed.

(** The clearing step on a disk that is ready for it. *)
Lemma watch_and_clear_ok d i c p :
  p ≠ [] →
  well_formed d →
  (d !! p = None ∧ no_file_on d (rev p) = true) ∨
  (d !! p = Some Dir ∧ plain_files_only d p) →
  ∃ d1,
    watch_and_clear self p (World d i c)
    = (Ok tt, World d1 i (c ++ [waiting_message; transfer_message])) ∧
    d1 !! p = Some Dir ∧
    (∀ k, ¬ p `prefix_of` k → ¬ k `prefix_of` p → d1 !! k = d !! k).
Proof.
  intros Hne Hwf [[Hnew Hnf]|[Hdir Hfiles]].
  - destruct (watch_and_clear_new self d i c p Hne Hnew Hnf)
      as (d1 & Hrun & Hdir1 & _ & _ & Hoff).
    exists d1. split; [done|]. split; [done|]. intros k _ Hk. by apply Hoff.
  - exists (remove_all p (OS.entries p d) d). split.
    + apply watch_and_clear_existing; [done|done| |done].
      rewrite (well_formed_parent d p Dir Hwf Hdir). by exists Dir.
    + split.
      * rewrite remove_all_lookup_out; [done|]. intros n _ Heq.
        by apply (snoc_ne p n).
      * intros k Hk _. apply remove_all_lookup_out. intros n _ ->.
        apply Hk. by exists [n].
Qed.

(** What the first steps of [run] leave on a ready session: the temp
    folder is there, and the drive is as it was. *)
Lemma run_clears s :
  session_ready self cwd s →
  ∃ d1,
    watch_and_clear self temp_path (World (sys s) (ids s) (out s))
    = (Ok tt, World d1 (ids s) (out s ++ [waiting_message; transfer_message])) ∧
    d1 !! temp_path = Some Dir ∧
    d1 !! root = Some Dir ∧
    (∀ n, d1 !! (root ++ [n]) = sys s !! (root ++ [n])) ∧
    plain_files_only d1 root ∧
    "tstamps.csv" ∈ OS.entries root d1.
Proof.
  intros (Hwf & Hoff & Hcase & Hroot & Hfiles & Hlog).
  fold tempdir temp_path root in Hoff, Hcase, Hroot, Hfiles, Hlog.
  destruct (watch_and_clear_ok (sys s) (ids s) (out s) temp_path
              temp_path_nonempty Hwf Hcase) as (d1 & Hrun & Hdir & Hsame).
  assert (Hdrive : ∀ k, root `prefix_of` k → d1 !! k = sys s !! k).
  { intros k Hk. apply Hsame.
    - by apply (off_drive (drive self) temp_path k temp_path_nonempty).
    - intros Hpre. apply Hoff. by etrans. }
  assert (Hchild : ∀ n, d1 !! (root ++ [n]) = sys s !! (root ++ [n])).
  { intros n. apply Hdrive. by exists [n]. }
  exists d1. split; [done|]. split; [done|].
  split; [by rewrite Hdrive|]. split; [done|]. split.
  - unfold plain_files_only in *. rewrite Forall_forall in *.
    intros n Hn. rewrite Hchild. apply Hfiles.
    apply elem_of_entries. rewrite <- Hchild. by apply elem_of_entries.
  - apply elem_of_entries. rewrite Hchild, Hlog. by exists File.
Qed.

(** [run] as the chain of its steps, from the staging on. *)
Lemma run_steps s d1 :
  watch_and_clear self temp_path (World (sys s) (ids s) (out s))
  = (Ok tt, World d1 (ids s) (out s ++ [waiting_message; transfer_message])) →
  d1 !! root = Some Dir →
  "tstamps.csv" ∈ OS.entries root d1 →
  let out1 := out s ++ [waiting_message; transfer_message] in
  run self cwd rows s
  = match move_and_convert_to_tiff tempdir (drive self) (OS.entries root d1) (staged s) with
    | (Raise e, st) =>
        (Raise e, Session d1 (ids s) out1 st (manifest s) (commands s) (started s))
    | (Ok _, st) =>
        match write_durations tempdir (slowx self) rows (Files (manifest s) out1) with
        | (Raise e, f) =>
            (Raise e, Session d1 (ids s) (stdout f) st (txt_file f) (commands s) (started s))
        | (Ok _, f) =>
            match create_video tempdir (outname self) (slowx self) (fps self)
                    (commands s) with
            | (Raise e, cm) =>
                (Raise e, Session d1 (ids s) (stdout f ++ [video_message]) st (txt_file f)
                            cm (started s))
            | (Ok _, cm) =>
                match tidy_up self temp_path
                        (World d1 (ids s) (stdout f ++ [video_message])) with
                | (r, w) =>
                    (r, Session (disk w) (next_id w) (console w) st (txt_file f) cm
                          (started s ++ [outname self]))
                end
            end
        end
    end.
Proof.
  intros Hclear Hroot Hlog out1.
  unfold run. fold tempdir temp_path root.
  unfold in_world, in_files, in_staging, in_commands, startfile, zoom, print.
  unfold mbind, M_bind, bind, modify, raise.
  rewrite Hclear. cbn [disk next_id console sys ids out staged manifest commands started].
  rewrite listdir_dir by done.
  cbn [disk next_id console sys ids out staged manifest commands started].
  rewrite bool_decide_eq_true_2 by done.
  destruct (move_and_convert_to_tiff _ _ _ _) as [[[]|e] st]; [|done].
  cbn [disk next_id console sys ids out staged manifest commands started].
  destruct (write_durations _ _ _ _) as [[[]|e] f]; [|done].
  cbn [disk next_id console sys ids out staged manifest commands started txt_file stdout].
  destruct (create_video _ _ _ _ _) as [[[]|e] cm]; [|done].
  cbn [disk next_id console sys ids out staged manifest commands started txt_file stdout].
  by destruct (tidy_up _ _ _) as [r w].
Qed.

End Run.

(** X15. Without a raw capture on the drive [run] stops in the staging,
    on the unbound [raw]: the temp folder has been made or cleared and the
    csv files copied, but no manifest is written, the encoder is not
    called, nothing is opened, and the drive keeps all its files. *)
Theorem run_without_raw_capture self cwd rows s :
  session_ready self cwd s →
  (∀ n, is_Some (sys s !! (drive_root (drive self) ++ [n])) →
        endswith n ".all" = false) →
  ∃ s' copies,
    run self cwd rows s = (Raise (UnboundLocalError "raw"), s') ∧
    staged s' = staged s ++ copies ∧ Forall (λ c, is_copy c = true) copies ∧
    manifest s' = manifest s ∧ commands s' = commands s ∧ started s' = started s ∧
    sys s' !! win_path (cwd +:+ "\temp") = Some Dir ∧
    (∀ n, sys s' !! (drive_root (drive self) ++ [n])
          = sys s !! (drive_root (drive self) ++ [n])) ∧
    out s' = out s ++ [waiting_message; transfer_message].
Proof.
  intros Hready Hnoraw.
  destruct (run_clears self cwd s Hready)
    as (d1 & Hclear & Htemp & Hroot & Hsame & Hfiles & Hlog).
  assert (Hno : ∀ n, n ∈ OS.entries (drive_root (drive self)) d1 →
                     endswith n ".all" = false).
  { intros n Hn. apply Hnoraw. rewrite <- Hsame. by apply elem_of_entries. }
  rewrite (run_steps self cwd rows s d1 Hclear Hroot Hlog).
  rewrite move_and_convert_run, (last_raw_None _ Hno).
  eexists _, _. split; [done|]. simpl.
  split; [done|]. split; [by apply stage_calls_copies|]. done.
Qed.




Lemma log_only_session_ready : session_ready worker "C:\cwd" log_only_session.
Proof.
  unfold session_ready.
  change (win_path ("C:\cwd" +:+ "\temp")) with temp.
  split; [unfold well_formed; apply map_Forall_to_list; vm_compute; repeat constructor|].
  split; [intros [k Hk]; discriminate Hk|].
  split; [left; split; reflexivity|].
  split; [reflexivity|].
  split; [unfold plain_files_only; vm_compute; repeat constructor|].
  reflexivity.
Defined.



Lemma run_without_raw_capture_witness :
  session_ready worker "C:\cwd" log_only_session ∧
  (∀ n, is_Some (sys log_only_session !! (drive_root (drive worker) ++ [n])) →
        endswith n ".all" = false) ∧
  ∃ s', run worker "C:\cwd" sample_log log_only_session
        = (Raise (UnboundLocalError "raw"), s') ∧
        manifest s' = [] ∧ commands s' = [].
Proof.
  assert (Hno : ∀ n, is_Some (sys log_only_session !! (drive_root (drive worker) ++ [n])) →
                     endswith n ".all" = false).
  { intros n [v Hv].
    apply elem_of_list_to_map_2 in Hv. vm_compute in Hv.
    repeat (apply elem_of_cons in Hv as [Hv|Hv]; [simplify_eq; try reflexivity|]).
    by apply elem_of_nil in Hv. }
  split; [exact log_only_session_ready|]. split; [exact Hno|].
  destruct (run_without_raw_capture worker "C:\cwd" sample_log log_only_session
              log_only_session_ready Hno)
    as (s' & copies & Hrun & _ & _ & Hm & Hc & _).
  exists s'. exact (conj Hrun (conj Hm Hc)).
Defined.



(** X18. The texts the code builds for the root of the drive, for the log
    and the files on it, and for a file in the temp folder name one path
    each, in all their spellings: the folder that [test_drive] looks for is
    the one the staging lists and [tidy_up] empties, and the copy the
    staging reads is the entry the clearing step would remove. *)
Theorem path_spellings dr f temp_folder :
  dr ∈ candidates → components f = [f] → f ≠ "" →
  win_path (dr +:+ "://") = drive_root dr ∧
  win_path (dr +:+ ":\\") = drive_root dr ∧
  win_path (dr +:+ ":/") = drive_root dr ∧
  win_path (dr +:+ ":\tstamps.csv") = drive_root dr ++ ["tstamps.csv"] ∧
  win_path (dr +:+ ":\\" +:+ f) = drive_root dr ++ [f] ∧
  win_path ((dr +:+ ":/") +:+ f) = drive_root dr ++ [f] ∧
  win_path (temp_folder +:+ "\\" +:+ f) = win_path temp_folder ++ [f] ∧
  win_path (temp_folder +:+ "\" +:+ f) = win_path temp_folder ++ [f].
Proof.
  intros Hdr Hf Hne.
  assert (Hjoin : ∀ a c, is_sep c = true → win_path (a +:+ String c f) = win_path a ++ [f]).
  { intros a c Hc. by apply win_path_join. }
  assert (Hroots : win_path (dr +:+ "://") = drive_root dr ∧
                   win_path (dr +:+ ":\\") = drive_root dr ∧
                   win_path (dr +:+ ":/") = drive_root dr ∧
                   win_path (dr +:+ ":\") = drive_root dr ∧
                   win_path (dr +:+ ":\tstamps.csv") = drive_root dr ++ ["tstamps.csv"]).
  { unfold candidates in Hdr.
    apply elem_of_cons in Hdr as [->|Hdr]; [by vm_compute|].
    apply elem_of_cons in Hdr as [->|Hdr]; [by vm_compute|].
    apply elem_of_cons in Hdr as [->|Hdr]; [by vm_compute|].
    by apply elem_of_nil in Hdr. }
  destruct Hroots as (H1 & H2 & H3 & H4 & H5).
  split; [done|]. split; [done|]. split; [done|]. split; [done|]. split; [|split; [|split]].
  - replace (dr +:+ ":\\" +:+ f) with ((dr +:+ ":\") +:+ String "\" f)
      by (by rewrite !string_app_assoc).
    by rewrite Hjoin, H4.
  - replace ((dr +:+ ":/") +:+ f) with ((dr +:+ ":") +:+ String "/" f)
      by (by rewrite !string_app_assoc).
    rewrite Hjoin by done.
    replace (win_path (dr +:+ ":")) with (drive_root dr); [done|].
    unfold candidates in Hdr.
    apply elem_of_cons in Hdr as [->|Hdr]; [by vm_compute|].
    apply elem_of_cons in Hdr as [->|Hdr]; [by vm_compute|].
    apply elem_of_cons in Hdr as [->|Hdr]; [by vm_compute|].
    by apply elem_of_nil in Hdr.
  - replace (temp_folder +:+ "\\" +:+ f) with ((temp_folder +:+ "\") +:+ String "\" f)
      by (by rewrite !string_app_assoc).
    rewrite Hjoin by done.
    replace (temp_folder +:+ "\") with (temp_folder +:+ String "\" "") by done.
    unfold win_path. rewrite (components_sep temp_folder "" "\") by done.
    by rewrite filter_app, app_nil_r.
  - by apply Hjoin.
Qed.

Lemma path_spellings_witness :
  "X" ∈ candidates ∧ components "tstamps.csv" = ["tstamps.csv"] ∧ "tstamps.csv" ≠ "" ∧
  win_path ("C:\cwd\temp" +:+ "\\" +:+ "tstamps.csv") = temp ++ ["tstamps.csv"].
Proof.
  assert (Hx : "X" ∈ candidates).
  { do 2 apply list_elem_of_further. apply list_elem_of_here. }
  assert (Hne : "tstamps.csv" ≠ "") by discriminate.
  split; [exact Hx|]. split; [reflexivity|]. split; [exact Hne|].
  exact (proj1 (proj2 (proj2 (proj2 (proj2 (proj2 (proj2
           (path_spellings "X" "tstamps.csv" "C:\cwd\temp" Hx eq_refl Hne)))))))).
Defined.
